(** * Metro: merge / WIP-stash / branch-switch workflow over a git store

    A shallow embedding of [src/helper.cpp], [src/metro/metro.cpp] and
    [src/metro/merging.cpp].  The C++ functions become functions in a small
    state-and-exception monad over an explicit repository state; the
    primitives of the versioned store (libgit2 behind the [git::] wrapper,
    not part of the sources) are either modelled from the specification or
    left as operations of a [Store] interface. *)

From Stdlib Require Import ZArith Ascii String DecimalString DecimalNat.
From stdpp Require Import base option list gmap strings.

Local Open Scope string_scope.
Local Open Scope Z_scope.

(** ** helper.cpp: string helpers *)

Module Helper.

(** [size_t] is modelled as a [Z] in [[0, 2^64)]; conversions wrap. *)
Definition SIZE_BITS : Z := 64.
Definition to_size_t (z : Z) : Z := z mod 2 ^ SIZE_BITS.

(** [std::string::npos], that is [(size_t) -1]. *)
Definition npos : Z := to_size_t (-1).

(** Position of the first occurrence of [c] at or after offset [i]. *)
Fixpoint find_from (str : string) (c : ascii) (i : Z) : Z :=
  match str with
  | EmptyString => npos
  | String a rest => if Ascii.eqb a c then to_size_t i else find_from rest c (i + 1)
  end.

(** [str.find(c)]: index of the first [c], or [npos]. *)
Definition find (str : string) (c : ascii) : Z := find_from str c 0.

(** [str.size()]. *)
Definition size (str : string) : Z := Z.of_nat (String.length str).

(** [str.substr(pos, n)]: throws [std::out_of_range] ([None]) when
    [pos > size()], otherwise the [min n (size - pos)] characters from [pos]. *)
Definition substr (str : string) (pos n : Z) : option string :=
  if size str <? pos then None
  else Some (substring (Z.to_nat pos) (Z.to_nat (Z.min n (size str - pos))) str).

(** [str.compare(pos, len, other) == 0]. *)
Definition compare_eq0 (str : string) (pos len : Z) (other : string) : bool :=
  String.eqb (substring (Z.to_nat pos) (Z.to_nat len) str) other.

(** helper.cpp:5-11 *)
Definition has_prefix (str pre : string) : bool :=
  if size pre <=? size str then compare_eq0 str 0 (size pre) pre
  else false.

(** helper.cpp:13-19 *)
Definition has_suffix (str suff : string) : bool :=
  if size suff <=? size str then
    compare_eq0 str (size str - size suff) (size suff) suff
  else false.

(** helper.cpp:24-33.  The comparison [index == -1] converts [-1] to
    [size_t].  The two output parameters [before] and [after] are returned as a pair;
    [None] stands for an exception escaping from [substr]. *)
Definition split_at_first (str : string) (c : ascii) : option (string * string) :=
  let index := find str c in
  if index =? to_size_t (-1) then
    Some (str, EmptyString)
  else
    before ← substr str 0 index;
    after ← substr str (to_size_t (index + 1)) npos;
    Some (before, after).

(** [c] occurs somewhere in [str]. *)
Fixpoint occurs (c : ascii) (str : string) : Prop :=
  match str with
  | EmptyString => False
  | String a rest => a = c ∨ occurs c rest
  end.

End Helper.

(** ** The versioned store

    The store itself (libgit2 and its [git::] wrapper classes) is not part
    of the sources.  Its state is modelled after the data model of the
    specification; the algorithms the specification leaves to the store
    (staging, tree writing, status, merge analysis, merging, forced
    checkout, printing of object ids) are the operations of the [Store]
    interface below and are never inspected by the workflow layer. *)

Module Git.

(** Modelled from the spec: the data model of section 3 (commits, trees,
    index with conflict entries, branches, head, merge state).

    Object ids: the object database is append-only and an id is the
    position of the commit in it. *)
Abbreviation OID := nat.

(** A tree is a flat snapshot: path to file content. *)
Abbreviation Tree := (gmap string string).
Abbreviation Workdir := (gmap string string).

Record CommitData := mkCommitData {
  parent_ids : list OID;
  tree : Tree;
  message : string
}.

(** A [Commit] handle as the wrapper hands it out: the id and what the
    object database stores under it. *)
Record Commit := mkCommit {
  id : OID;
  data : CommitData
}.

Definition parentcount (c : Commit) : nat := length (parent_ids (data c)).

(** The three sides of a conflicted path (a side is absent when the file
    does not exist on that side). *)
Record ConflictSides := mkConflictSides {
  ancestor : option string;
  ours : option string;
  theirs : option string
}.

(** A detached copy of an index conflict: the path and its sides. *)
Definition StandaloneConflict : Type := string * ConflictSides.

Record Index := mkIndex {
  entries : gmap string string;
  conflicts : gmap string ConflictSides
}.

Inductive HeadRef :=
| Symbolic (branch : string)   (* HEAD is "ref: refs/heads/<branch>" *)
| Detached (target : OID).

Record Repository := mkRepository {
  objects : list CommitData;
  branches : gmap string OID;
  HEAD : HeadRef;
  index : Index;
  workdir : Workdir;
  MERGE_HEAD : option OID;
  MERGE_MSG : option string
}.

Definition set_objects (v : list CommitData) (r : Repository) : Repository :=
  mkRepository v (branches r) (HEAD r) (index r) (workdir r) (MERGE_HEAD r) (MERGE_MSG r).
Definition set_branches (v : gmap string OID) (r : Repository) : Repository :=
  mkRepository (objects r) v (HEAD r) (index r) (workdir r) (MERGE_HEAD r) (MERGE_MSG r).
Definition set_HEAD (v : HeadRef) (r : Repository) : Repository :=
  mkRepository (objects r) (branches r) v (index r) (workdir r) (MERGE_HEAD r) (MERGE_MSG r).
Definition set_index (v : Index) (r : Repository) : Repository :=
  mkRepository (objects r) (branches r) (HEAD r) v (workdir r) (MERGE_HEAD r) (MERGE_MSG r).
Definition set_workdir (v : Workdir) (r : Repository) : Repository :=
  mkRepository (objects r) (branches r) (HEAD r) (index r) v (MERGE_HEAD r) (MERGE_MSG r).
Definition set_MERGE_HEAD (v : option OID) (r : Repository) : Repository :=
  mkRepository (objects r) (branches r) (HEAD r) (index r) (workdir r) v (MERGE_MSG r).
Definition set_MERGE_MSG (v : option string) (r : Repository) : Repository :=
  mkRepository (objects r) (branches r) (HEAD r) (index r) (workdir r) (MERGE_HEAD r) v.

(** *** Exceptions and the state monad

    A thrown exception does not roll the repository back: the state
    reached at the throw is part of the outcome. *)

Inductive Exception :=
| GitException                                  (* a failure reported by the store *)
| OutOfRange                                    (* std::out_of_range *)
| CurrentlyMergingException
| NotMergingException
| UnnecessaryMergeException
| UnsupportedOperationException (what : string)
| BranchNotFoundException
| RepositoryExistsException.

Inductive Result (A : Type) :=
| Ok (a : A)
| Throw (e : Exception).
Arguments Ok {A} a.
Arguments Throw {A} e.

Definition M (A : Type) : Type := Repository → Result A * Repository.

Definition ret {A} (a : A) : M A := λ r, (Ok a, r).

Definition bind {A B} (m : M A) (k : A → M B) : M B :=
  λ r, match m r with
       | (Ok a, r') => k a r'
       | (Throw e, r') => (Throw e, r')
       end.

Definition throw {A} (e : Exception) : M A := λ r, (Throw e, r).

(** [try { m } catch (E&) { h }], where [catches] tells which exceptions
    the handler's type matches. *)
Definition try_catch {A} (m : M A) (catches : Exception → bool) (h : M A) : M A :=
  λ r, match m r with
       | (Throw e, r') => if catches e then h r' else (Throw e, r')
       | outcome => outcome
       end.

Definition gets {A} (f : Repository → A) : M A := λ r, (Ok (f r), r).
Definition modify (f : Repository → Repository) : M unit := λ r, (Ok tt, f r).

(** Failures of the store surface as [GitException]. *)
Definition from_option {A} (o : option A) : M A :=
  match o with
  | Some a => ret a
  | None => throw GitException
  end.

Definition catch_GitException (e : Exception) : bool :=
  match e with GitException => true | _ => false end.
Definition catch_exception (e : Exception) : bool := true.

End Git.

Import Git.

Notation "x <- m ;; k" := (Git.bind m (λ x, k))
  (at level 100, m at next level, right associativity, only parsing).
Notation "m ;;; k" := (Git.bind m (λ _, k))
  (at level 100, right associativity, only parsing).

(** *** The store's own algorithms *)

(** Object ids are written with hexadecimal digits only. *)
Definition is_hex_digit (a : ascii) : bool :=
  existsb (Ascii.eqb a) (list_ascii_of_string "0123456789abcdef").

Fixpoint all_hex (s : string) : bool :=
  match s with
  | EmptyString => true
  | String a rest => is_hex_digit a && all_hex rest
  end.

Class Store := {
  (** [oid.str()], and how revision resolution reads an id back. *)
  oid_str : OID → string;
  oid_parse : string → option OID;
  oid_parse_str : ∀ o, oid_parse (oid_str o) = Some o;
  oid_parse_hex : ∀ s o, oid_parse s = Some o → all_hex s = true;
  (** Flags of [git_merge_analysis_t] (from git2.h). *)
  GIT_MERGE_ANALYSIS_NONE : Z;
  GIT_MERGE_ANALYSIS_NORMAL : Z;
  GIT_MERGE_ANALYSIS_UP_TO_DATE : Z;
  (** [index.add_all({}, GIT_INDEX_ADD_DISABLE_PATHSPEC_MATCH, nullptr)]:
      the index after staging the working directory under the ignore rules. *)
  stage_all : Index → Workdir → Index;
  (** [index.write_tree()] followed by [lookup_tree]; [None] when the
      store refuses to write the tree. *)
  tree_of_index : Index → option Tree;
  (** Number of entries of the status list for
      [GIT_STATUS_SHOW_INDEX_AND_WORKDIR] with [GIT_STATUS_OPT_INCLUDE_UNTRACKED]. *)
  status_entrycount : Repository → nat;
  (** [repo.merge_analysis({other})]: a set of flags. *)
  analyse_merge : Repository → OID → Z;
  (** Index and working directory after [repo.merge] of [other] under
      [GIT_CHECKOUT_FORCE | GIT_CHECKOUT_ALLOW_CONFLICTS]. *)
  merge_into : Repository → OID → Index * Workdir;
  (** Index and working directory after a [GIT_CHECKOUT_FORCE] checkout of a tree. *)
  checkout_force : Tree → Index → Workdir → Index * Workdir
}.

(** *** Primitives of a repository session

    The wrapper methods the sources call.  Their bodies are not in the
    sources; each is given the behaviour section 6 of the specification
    lists for it. *)

Module Repo.
Section WithStore.
Context `{Store}.

(** Modelled from the spec: object lookup by id, as a [Commit] handle. *)
Definition lookup_commit (o : OID) (r : Repository) : option Commit :=
  mkCommit o <$> objects r !! o.

(** Modelled from the spec: the commit at which HEAD currently is, if any
    (none on an unborn branch). *)
Definition head_oid (r : Repository) : option OID :=
  match HEAD r with
  | Symbolic b => branches r !! b
  | Detached o => Some o
  end.

(** Modelled from the spec: revision resolution (string to commit; fails
    if unresolvable).  An object id denotes that object; [HEAD] and
    [MERGE_HEAD] denote the head and the merge-head marker; any other
    name is looked up among the local branches. *)
Definition resolve_revision (spec : string) (r : Repository) : option Commit :=
  match oid_parse spec ≫= (λ o, lookup_commit o r) with
  | Some c => Some c
  | None =>
      if String.eqb spec "HEAD" then head_oid r ≫= (λ o, lookup_commit o r)
      else if String.eqb spec "MERGE_HEAD" then MERGE_HEAD r ≫= (λ o, lookup_commit o r)
      else branches r !! spec ≫= (λ o, lookup_commit o r)
  end.

(** Modelled from the spec: [repo.revparse_single(spec)], cast to a commit. *)
Definition revparse_single (spec : string) : M Commit :=
  c <- gets (resolve_revision spec) ;; from_option c.

(** Modelled from the spec: [commit.parent(n)], the stored commit the
    [n]-th parent id designates. *)
Definition commit_parent (c : Commit) (n : nat) : M Commit :=
  p <- gets (λ r, parent_ids (data c) !! n ≫= (λ o, lookup_commit o r)) ;; from_option p.

(** A [for] loop over [l] that collects the results. *)
Fixpoint for_each {A B} (f : A → M B) (l : list A) : M (list B) :=
  match l with
  | [] => ret []
  | a :: rest => b <- f a ;; bs <- for_each f rest ;; ret (b :: bs)
  end.

(** Modelled from the spec: [commit.parents()], every parent in order. *)
Definition commit_parents (c : Commit) : M (list Commit) :=
  for_each (commit_parent c) (seq 0 (parentcount c)).

(** Modelled from the spec: [repo.lookup_branch(name, GIT_BRANCH_LOCAL)]
    (branch lookup); a branch handle is its name. *)
Definition lookup_branch (name : string) : M string :=
  o <- gets (λ r, branches r !! name) ;; from_option o ;;; ret name.

(** Modelled from the spec: [repo.create_branch(name, commit, false)]
    (branch creation); without force an existing branch of that name is
    an error. *)
Definition create_branch (name : string) (c : Commit) : M unit :=
  o <- gets (λ r, branches r !! name) ;;
  match o with
  | Some _ => throw GitException
  | None => modify (λ r, set_branches (<[name := id c]> (branches r)) r)
  end.

(** Modelled from the spec: [branch.delete_branch()] (branch deletion). *)
Definition branch_delete (branch : string) : M unit :=
  modify (λ r, set_branches (delete branch (branches r)) r).

(** Modelled from the spec: [branch.is_head()] (is this branch at head). *)
Definition branch_is_head (branch : string) : M bool :=
  gets (λ r, match HEAD r with
             | Symbolic b => bool_decide (b = branch)
             | Detached _ => false
             end).

(** Modelled from the spec: [repo.new_branch_iterator(GIT_BRANCH_LOCAL)]
    (branch iteration), the local branches. *)
Definition new_branch_iterator : M (list string) :=
  gets (λ r, (map_to_list (branches r)).*1).

(** Modelled from the spec: [repo.set_head(branch.reference_name())]
    (head movement, a symbolic ref update). *)
Definition set_head (branch : string) : M unit :=
  modify (set_HEAD (Symbolic branch)).

(** Modelled from the spec: a reference update through HEAD (moving the
    current head): the branch HEAD designates takes the new target (and is
    created if it was unborn); a detached HEAD takes it itself. *)
Definition update_HEAD_target (o : OID) (r : Repository) : Repository :=
  match HEAD r with
  | Symbolic b => set_branches (<[b := o]> (branches r)) r
  | Detached _ => set_HEAD (Detached o) r
  end.

(** Modelled from the spec:
    [repo.create_commit("HEAD", author, author, "UTF-8", message, tree, parents)]
    (commit creation) stores the commit and moves what HEAD designates to
    it.  Signatures are not part of the model. *)
Definition create_commit (message : string) (t : Tree) (parents : list Commit) : M unit :=
  modify (λ r,
    update_HEAD_target (length (objects r))
      (set_objects (objects r ++ [mkCommitData (id <$> parents) t message]) r)).

(** Modelled from the spec: [repo.checkout_tree(tree, opts)] with
    [GIT_CHECKOUT_FORCE] (forced tree checkout). *)
Definition checkout_tree (t : Tree) : M unit :=
  modify (λ r, let '(i, w) := checkout_force t (index r) (workdir r) in
               set_workdir w (set_index i r)).

(** Modelled from the spec: [repo.reset_to_commit(commit, type, opts)];
    both kinds move what HEAD designates, a hard reset also overwrites
    index and working directory. *)
Definition reset_to_commit (c : Commit) (hard : bool) : M unit :=
  modify (update_HEAD_target (id c)) ;;;
  if hard then checkout_tree (tree (data c)) else ret tt.

(** Modelled from the spec: [repo.merge_analysis(sources)] for the single
    source [other]. *)
Definition merge_analysis (other : Commit) : M Z :=
  gets (λ r, analyse_merge r (id other)).

(** Modelled from the spec: [repo.merge(sources, mergeOpts, checkoutOpts)]
    (merge execution); index and working directory take the merge result
    and the merge-head marker is set. *)
Definition merge (other : Commit) : M unit :=
  modify (λ r, let '(i, w) := merge_into r (id other) in
               set_MERGE_HEAD (Some (id other)) (set_workdir w (set_index i r))).

(** Modelled from the spec: [repo.cleanup_state()] (clear both), removes
    the merge-head marker and the merge message. *)
Definition cleanup_state : M unit :=
  modify (λ r, set_MERGE_MSG None (set_MERGE_HEAD None r)).

(** Modelled from the spec: [new_status_list(opts).entrycount()]
    (status query). *)
Definition status_list_entrycount : M nat := gets status_entrycount.

(** Modelled from the spec: the methods of the session's single index
    (stage all, write as tree, write to disk, conflict iteration, addition
    and removal); every [Index] handle obtained from [repo.index()]
    designates it.  First [index.add_all(...)]. *)
Definition index_add_all : M unit :=
  modify (λ r, set_index (stage_all (index r) (workdir r)) r).

(** Modelled from the spec: [index.write_tree()] and the lookup of the
    tree it names. *)
Definition index_write_tree : M Tree :=
  t <- gets (λ r, tree_of_index (index r)) ;; from_option t.

(** Modelled from the spec: [index.write()]; the model keeps one copy of
    the index, so persisting it changes nothing observable. *)
Definition index_write : M unit := ret tt.

(** Modelled from the spec: [index.has_conflicts()]. *)
Definition index_has_conflicts : M bool :=
  gets (λ r, bool_decide (conflicts (index r) ≠ ∅)).

(** Modelled from the spec: [index.cleanup_conflicts()]. *)
Definition index_cleanup_conflicts : M unit :=
  modify (λ r, set_index (mkIndex (entries (index r)) ∅) r).

(** Modelled from the spec: [index.add_conflict(conflict)]. *)
Definition index_add_conflict (c : StandaloneConflict) : M unit :=
  modify (λ r, set_index (mkIndex (entries (index r))
                                  (<[c.1 := c.2]> (conflicts (index r)))) r).

(** Modelled from the spec: what the [ConflictIterator] of
    [index.conflict_iterator()] yields. *)
Definition index_conflict_iterator : M (list StandaloneConflict) :=
  gets (λ r, map_to_list (conflicts (index r))).

(** Modelled from the spec: the file [repo.path() + "/MERGE_MSG"] is the
    [MERGE_MSG] component of the state.  [read_all] of helper.cpp on that
    path: a file that cannot be read yields the empty string. *)
Definition read_all_MERGE_MSG : M string :=
  gets (λ r, default EmptyString (MERGE_MSG r)).

(** [write_all] of helper.cpp on that path. *)
Definition write_all_MERGE_MSG (text : string) : M unit :=
  modify (set_MERGE_MSG (Some text)).

End WithStore.
End Repo.

(** ** metro.cpp and merging.cpp

    Every function takes the repository as its state.  [create], which
    initialises a repository on disk, is outside the model. *)

Module Metro.
Import Helper.

(** Modelled from the spec: the constant [WIPString] is declared outside the
    sources; the specification gives the reserved suffix as [#wip]
    (branch [main] is stashed on [main#wip]). *)
Definition WIPString : string := "#wip".

Section WithStore.
Context `{Store}.

(** metro.cpp:7-14.  Returns true if the repo is currently in merging state. *)
Definition merge_ongoing : M bool :=
  try_catch (Repo.revparse_single "MERGE_HEAD" ;;; ret true)
            catch_exception
            (ret false).

(** metro.cpp:16-20 *)
Definition assert_merging : M unit :=
  m <- merge_ongoing ;;
  if m then throw CurrentlyMergingException else ret tt.

(** metro.cpp:26-40, [commit(repo, message, vector<Commit>)]: stage
    everything, write the tree, persist the index, create the commit at
    HEAD.  The default signature is not part of the model. *)
Definition commit (message : string) (parentCommits : list Commit) : M unit :=
  Repo.index_add_all ;;;
  t <- Repo.index_write_tree ;;
  Repo.index_write ;;;
  Repo.create_commit message t parentCommits.

(** metro.cpp:46-54, [commit(repo, message, initializer_list<string>)] *)
Definition commit_revs (message : string) (parentRevs : list string) : M unit :=
  parentCommits <- Repo.for_each Repo.revparse_single parentRevs ;;
  commit message parentCommits.

(** metro.cpp:94-98 *)
Definition get_commit (revision : string) : M Commit :=
  Repo.revparse_single revision.

(** metro.cpp:68-80 *)
Definition delete_last_commit (reset : bool) : M unit :=
  lastCommit <- get_commit "HEAD" ;;
  if (parentcount lastCommit =? 0)%nat then
    throw (UnsupportedOperationException "Can't delete initial commit.")
  else
    parent <- Repo.commit_parent lastCommit 0 ;;
    Repo.reset_to_commit parent reset.

(** metro.cpp:82-87 *)
Definition patch (message : string) : M unit :=
  assert_merging ;;;
  head <- get_commit "HEAD" ;;
  parents <- Repo.commit_parents head ;;
  delete_last_commit false ;;;
  commit message parents.

(** metro.cpp:100-107 *)
Definition commit_exists (name : string) : M bool :=
  try_catch (get_commit name ;;; ret true) catch_GitException (ret false).

(** metro.cpp:111-114 *)
Definition create_branch (name : string) : M unit :=
  c <- get_commit "HEAD" ;;
  Repo.create_branch name c.

(** metro.cpp:116-123 *)
Definition branch_exists (name : string) : M bool :=
  try_catch (Repo.lookup_branch name ;;; ret true) catch_GitException (ret false).

(** metro.cpp:127-132, the loop of [current_branch_name] over the branch
    iterator. *)
Fixpoint first_head_branch (iter : list string) : M string :=
  match iter with
  | [] => throw BranchNotFoundException
  | branch :: rest =>
      h <- Repo.branch_is_head branch ;;
      if h then ret branch else first_head_branch rest
  end.

(** metro.cpp:125-133 *)
Definition current_branch_name : M string :=
  iter <- Repo.new_branch_iterator ;;
  first_head_branch iter.

(** metro.cpp:135-138 *)
Definition delete_branch (name : string) : M unit :=
  branch <- Repo.lookup_branch name ;;
  Repo.branch_delete branch.

(** metro.cpp:143-148 *)
Definition checkout (name : string) : M unit :=
  c <- get_commit name ;;
  Repo.checkout_tree (tree (data c)).

(** metro.cpp:150-157 *)
Definition has_uncommitted_changes : M bool :=
  n <- Repo.status_list_entrycount ;;
  ret (0 <? n)%nat.

(** metro.cpp:159-166; the [index] argument designates the session's index. *)
Definition get_conflicts : M (list StandaloneConflict) :=
  Repo.index_conflict_iterator.

(** metro.cpp:256-259 *)
Definition move_head (name : string) : M unit :=
  branch <- Repo.lookup_branch name ;;
  Repo.set_head branch.

(** *** merging.cpp *)

(** merging.cpp:5-7 *)
Definition default_merge_message (mergedName : string) : string :=
  "Absorbed " +:+ mergedName.

(** merging.cpp:9-11 *)
Definition get_merge_message : M string := Repo.read_all_MERGE_MSG.

(** merging.cpp:13-15 *)
Definition set_merge_message (message : string) : M unit :=
  Repo.write_all_MERGE_MSG message.

(** merging.cpp:18-20 *)
Definition merge_head_id : M string :=
  c <- get_commit "MERGE_HEAD" ;;
  ret (oid_str (id c)).

(** merging.cpp:24-43 *)
Definition start_merge (name : string) : M unit :=
  otherHead <- get_commit name ;;
  analysis <- Repo.merge_analysis otherHead ;;
  if negb (Z.land analysis (Z.lor GIT_MERGE_ANALYSIS_NONE GIT_MERGE_ANALYSIS_UP_TO_DATE) =? 0) then
    throw UnnecessaryMergeException
  else if Z.land analysis GIT_MERGE_ANALYSIS_NORMAL =? 0 then
    throw (UnsupportedOperationException "Non-normal absorb not supported.")
  else
    Repo.merge otherHead ;;;
    set_merge_message (default_merge_message name).

(** merging.cpp:46-58 *)
Definition resolve : M unit :=
  m <- merge_ongoing ;;
  if negb m then throw NotMergingException
  else
    mergeHead <- merge_head_id ;;
    message <- get_merge_message ;;
    Repo.cleanup_state ;;;
    Repo.index_cleanup_conflicts ;;;
    commit_revs message ["HEAD"; mergeHead].

(** merging.cpp:60-74 *)
Definition absorb (mergeHead : string) : M bool :=
  if has_suffix mergeHead WIPString then
    throw (UnsupportedOperationException "Can't absorb WIP branch.")
  else
    assert_merging ;;;
    start_merge mergeHead ;;;
    c <- Repo.index_has_conflicts ;;
    if c then ret true
    else resolve ;;; ret false.

(** *** metro.cpp, continued *)

(** metro.cpp:170-194 *)
Definition save_wip : M unit :=
  u <- has_uncommitted_changes ;;
  m <- (if u then ret true else merge_ongoing) ;;
  if negb m then ret tt
  else
    name <- current_branch_name ;;
    try_catch (delete_branch (name +:+ WIPString)) catch_GitException (ret tt) ;;;
    create_branch (name +:+ WIPString) ;;;
    move_head (name +:+ WIPString) ;;;
    merging <- merge_ongoing ;;
    if merging then
      message <- get_merge_message ;;
      commit_revs ("WIP" +:+ String "010" message) ["HEAD"; "MERGE_HEAD"] ;;;
      Repo.cleanup_state
    else
      commit_revs "WIP" ["HEAD"].

(** The [substr] inside [restore_wip]; its [std::out_of_range] is not caught. *)
Definition substr_or_throw (str : string) (pos n : Z) : M string :=
  match substr str pos n with
  | Some s => ret s
  | None => throw OutOfRange
  end.

(** metro.cpp:198-240.  [newlineIndex] is a [size_t]: the test
    [newlineIndex >= 0] and the sum [newlineIndex + 1] are taken on
    unsigned 64-bit values. *)
Definition restore_wip : M unit :=
  name <- current_branch_name ;;
  e <- branch_exists (name +:+ WIPString) ;;
  if negb e then ret tt
  else
    wipCommit <- get_commit (name +:+ WIPString) ;;
    conflicts <-
      (if (1 <? parentcount wipCommit)%nat then
         p <- Repo.commit_parent wipCommit 1 ;;
         let mergeHead := oid_str (id p) in
         start_merge mergeHead ;;;
         let commitMessage := message (data wipCommit) in
         let newlineIndex := find commitMessage "010"%char in
         (if 0 <=? newlineIndex then
            mergeMessage <- substr_or_throw commitMessage (to_size_t (newlineIndex + 1)) npos ;;
            set_merge_message mergeMessage
          else ret tt) ;;;
         cs <- get_conflicts ;;
         Repo.index_cleanup_conflicts ;;;
         ret cs
       else ret []) ;;
    checkout (name +:+ WIPString) ;;;
    delete_branch (name +:+ WIPString) ;;;
    Repo.for_each Repo.index_add_conflict conflicts ;;;
    Repo.index_write.

(** metro.cpp:242-254 *)
Definition switch_branch (name : string) : M unit :=
  if has_suffix name WIPString then
    throw (UnsupportedOperationException "Can't switch to WIP branch.")
  else
    e <- branch_exists name ;;
    if negb e then throw BranchNotFoundException
    else
      save_wip ;;;
      checkout name ;;;
      move_head name ;;;
      restore_wip.

End WithStore.
End Metro.

(** ** States the workflow reaches

    Closed forms of the repository after the main steps, used to state
    what the operations leave behind. *)

(** A merge analysis result has flag [flag] set. *)
Definition reports (analysis flag : Z) : Prop := Z.land analysis flag ≠ 0.

(** Everything after the first [c] in [s], if [c] occurs. *)
Fixpoint after_first (c : ascii) (s : string) : option string :=
  match s with
  | EmptyString => None
  | String a rest => if Ascii.eqb a c then Some rest else after_first c rest
  end.

Section Outcomes.
Context `{Store}.
Import Metro.

(** After a successful [start_merge] of commit [other] under message [msg]. *)
Definition merge_started (r : Repository) (other : OID) (msg : string) : Repository :=
  set_MERGE_MSG (Some msg)
    (set_MERGE_HEAD (Some other)
       (set_workdir (merge_into r other).2 (set_index (merge_into r other).1 r))).

(** After [commit] has staged the working directory and stored commit [c]
    at HEAD. *)
Definition committed (r : Repository) (c : CommitData) : Repository :=
  Repo.update_HEAD_target (length (objects r))
    (set_objects (objects r ++ [c])
       (set_index (stage_all (index r) (workdir r)) r)).

(** Once [save_wip] has (re)created the WIP branch of [b] at commit [h] and
    moved HEAD onto it. *)
Definition on_wip_branch (r : Repository) (b : string) (h : OID) : Repository :=
  set_HEAD (Symbolic (b +:+ WIPString))
    (set_branches (<[b +:+ WIPString := h]> (branches r)) r).

(** The handle [commit.parent(n)] yields when every parent is stored. *)
Definition parent_handle (r : Repository) (c : Commit) (n : nat) : Commit :=
  let o := default 0%nat (parent_ids (data c) !! n) in
  mkCommit o (default (mkCommitData [] ∅ EmptyString) (objects r !! o)).

(** After a forced checkout of tree [t]. *)
Definition checked_out (t : Tree) (r : Repository) : Repository :=
  set_workdir (checkout_force t (index r) (workdir r)).2
    (set_index (checkout_force t (index r) (workdir r)).1 r).

(** The index after re-inserting the detached conflicts [cs] one by one. *)
Definition add_conflicts (cs : list StandaloneConflict) (i : Index) : Index :=
  foldl (λ i c, mkIndex (entries i) (<[c.1 := c.2]> (conflicts i))) i cs.

(** What [restore_wip] reaches for branch [b] when the WIP commit has tree
    [t] and a single parent. *)
Definition plain_restored (b : string) (t : Tree) (r : Repository) : Repository :=
  set_branches (delete (b +:+ WIPString) (branches r)) (checked_out t r).

(** The same when the WIP commit has merge head [mh] as second parent and
    [mm] is the message read back from the WIP commit message. *)
Definition merge_restored (b : string) (t : Tree) (mh : OID) (mm : string)
    (r : Repository) : Repository :=
  let r2 := set_MERGE_MSG (Some mm)
              (merge_started r mh (default_merge_message (oid_str mh))) in
  let cs := map_to_list (conflicts (index r2)) in
  let r4 := checked_out t (set_index (mkIndex (entries (index r2)) ∅) r2) in
  let r5 := set_branches (delete (b +:+ WIPString) (branches r4)) r4 in
  set_index (add_conflicts cs (index r5)) r5.


End Outcomes.

(** ** A reference store

    A small executable instance of [Store], used to run the workflow on
    concrete repositories: ids print in decimal, staging mirrors the
    working directory into the index and settles the conflicts of the paths
    it stages, a tree can be written once no conflict is left, merging is
    a two-way merge of the head tree with the other tree, and a forced
    checkout overwrites tracked paths and keeps untracked ones.  The
    analysis flags take the values of libgit2 (none 0, normal 1, up to
    date 2, fast-forward 4, unborn 8). *)

Module RefStore.

Definition ref_oid_str (o : OID) : string :=
  NilEmpty.string_of_uint (Nat.to_uint o).

Definition ref_oid_parse (s : string) : option OID :=
  match NilEmpty.uint_of_string s with
  | Some d =>
      let o := Nat.of_uint d in
      if String.eqb (ref_oid_str o) s then Some o else None
  | None => None
  end.

Definition ref_stage_all (i : Index) (w : Workdir) : Index :=
  mkIndex w (filter (λ pc, w !! pc.1 = None) (conflicts i)).

Definition ref_tree_of_index (i : Index) : option Tree :=
  if decide (conflicts i = ∅) then Some (entries i) else None.

Definition head_tree (r : Repository) : Tree :=
  default ∅ (tree <$> (Repo.head_oid r ≫= (λ o, objects r !! o))).

Definition ref_status_entrycount (r : Repository) : nat :=
  if decide (entries (index r) = head_tree r ∧ workdir r = head_tree r
             ∧ conflicts (index r) = ∅)
  then 0%nat else 1%nat.

(** [target] is [from] or one of its ancestors ([fuel] bounds the depth). *)
Fixpoint reaches (fuel : nat) (objs : list CommitData) (from target : OID) : bool :=
  match fuel with
  | O => false
  | S fuel' =>
      bool_decide (from = target)
      || existsb (λ p, reaches fuel' objs p target)
                 (default [] (parent_ids <$> objs !! from))
  end.

Definition ref_analyse_merge (r : Repository) (other : OID) : Z :=
  match Repo.head_oid r with
  | None => 12                                   (* fast-forward, unborn *)
  | Some h =>
      let fuel := S (length (objects r)) in
      if reaches fuel (objects r) h other then 2          (* up to date *)
      else if reaches fuel (objects r) other h then 5     (* fast-forward, normal *)
      else 1                                              (* normal *)
  end.

Definition merge_side (a b : option string) : option string :=
  match a, b with
  | Some x, Some y => if decide (x = y) then Some x else None
  | Some x, None => Some x
  | None, b => b
  end.

Definition merge_conflict (a b : option string) : option ConflictSides :=
  match a, b with
  | Some x, Some y =>
      if decide (x = y) then None else Some (mkConflictSides None (Some x) (Some y))
  | _, _ => None
  end.

Definition merge_marked (a b : option string) : option string :=
  match a, b with
  | Some x, Some y =>
      if decide (x = y) then Some x else Some ("<<<" +:+ x +:+ "===" +:+ y +:+ ">>>")
  | Some x, None => Some x
  | None, b => b
  end.

Definition ref_merge_into (r : Repository) (other : OID) : Index * Workdir :=
  let ours := head_tree r in
  let theirs := default ∅ (tree <$> objects r !! other) in
  (mkIndex (merge merge_side ours theirs) (merge merge_conflict ours theirs),
   merge merge_marked ours theirs ∪ workdir r).

Definition ref_checkout_force (t : Tree) (i : Index) (w : Workdir) : Index * Workdir :=
  (mkIndex t (conflicts i), t ∪ filter (λ pc, entries i !! pc.1 = None) w).

#[export, refine] Instance ref_store : Store := {|
  oid_str := ref_oid_str;
  oid_parse := ref_oid_parse;
  GIT_MERGE_ANALYSIS_NONE := 0;
  GIT_MERGE_ANALYSIS_NORMAL := 1;
  GIT_MERGE_ANALYSIS_UP_TO_DATE := 2;
  stage_all := ref_stage_all;
  tree_of_index := ref_tree_of_index;
  status_entrycount := ref_status_entrycount;
  analyse_merge := ref_analyse_merge;
  merge_into := ref_merge_into;
  checkout_force := ref_checkout_force
|}.
Proof.
  - intros o. unfold ref_oid_parse, ref_oid_str.
    rewrite NilEmpty.usu, DecimalNat.Unsigned.of_to, String.eqb_refl. reflexivity.
  - intros s o. unfold ref_oid_parse, ref_oid_str.
    destruct (NilEmpty.uint_of_string s) as [d|]; [|discriminate].
    destruct (String.eqb_spec (NilEmpty.string_of_uint (Nat.to_uint (Nat.of_uint d))) s)
      as [<-|]; [intros _|discriminate].
    generalize (Nat.to_uint (Nat.of_uint d)). clear.
    intros u. induction u; simpl; auto.
Defined.

(** Example repositories. *)

Definition root_commit : CommitData :=
  mkCommitData [] {[ "a.txt" := "one" ]} "Create repository".

(** One commit on [main]; [a.txt] edited and [b.txt] untracked. *)
Definition dirty_repo : Repository :=
  mkRepository [root_commit] {[ "main" := 0%nat ]} (Symbolic "main")
    (mkIndex {[ "a.txt" := "one" ]} ∅)
    (<[ "b.txt" := "new" ]> {[ "a.txt" := "edited" ]})
    None None.

(** Same history, nothing to commit. *)
Definition clean_repo : Repository :=
  mkRepository [root_commit] {[ "main" := 0%nat ]} (Symbolic "main")
    (mkIndex {[ "a.txt" := "one" ]} ∅) {[ "a.txt" := "one" ]} None None.

(** [main] and [topic] diverge from the root and both change [a.txt]. *)
Definition diverged_repo : Repository :=
  mkRepository
    [root_commit;
     mkCommitData [0%nat] {[ "a.txt" := "ours" ]} "main work";
     mkCommitData [0%nat] {[ "a.txt" := "theirs" ]} "topic work"]
    (<[ "topic" := 2%nat ]> {[ "main" := 1%nat ]}) (Symbolic "main")
    (mkIndex {[ "a.txt" := "ours" ]} ∅) {[ "a.txt" := "ours" ]} None None.

(** [dirty_repo] after its changes were stashed: HEAD is on [main#wip]. *)
Definition stashed_repo : Repository :=
  mkRepository
    [root_commit;
     mkCommitData [0%nat] (<[ "b.txt" := "new" ]> {[ "a.txt" := "edited" ]}) "WIP"]
    (<[ "main#wip" := 1%nat ]> {[ "main" := 0%nat ]}) (Symbolic "main#wip")
    (mkIndex (<[ "b.txt" := "new" ]> {[ "a.txt" := "edited" ]}) ∅)
    (<[ "b.txt" := "new" ]> {[ "a.txt" := "edited" ]})
    None None.

(** [diverged_repo] in the middle of absorbing [topic], with [a.txt] in conflict. *)
Definition merging_repo : Repository :=
  mkRepository (objects diverged_repo) (branches diverged_repo) (Symbolic "main")
    (mkIndex ∅ {[ "a.txt" := mkConflictSides None (Some "ours") (Some "theirs") ]})
    {[ "a.txt" := "<<<ours===theirs>>>" ]}
    (Some 2%nat) (Some "Absorbed topic").

(** [diverged_repo] with a stash on [main#wip] whose two-parent commit has
    the one-line message [WIP]. *)
Definition one_line_wip_repo : Repository :=
  mkRepository
    (objects diverged_repo
       ++ [mkCommitData [1%nat; 2%nat] {[ "a.txt" := "resolved" ]} "WIP"])
    (<[ "main#wip" := 3%nat ]> (branches diverged_repo)) (Symbolic "main")
    (mkIndex {[ "a.txt" := "ours" ]} ∅) {[ "a.txt" := "ours" ]} None None.

(** HEAD designates a branch that does not exist yet. *)
Definition unborn_repo : Repository :=
  mkRepository [root_commit] {[ "main" := 0%nat ]} (Symbolic "fresh")
    (mkIndex ∅ ∅) ∅ None None.

End RefStore.

(** ** More example repositories *)

Module Examples.
Import RefStore.

(** [dirty_repo] with HEAD detached at the root commit. *)
Definition detached_repo : Repository :=
  mkRepository [root_commit] {[ "main" := 0%nat ]} (Detached 0%nat)
    (mkIndex {[ "a.txt" := "one" ]} ∅)
    (<[ "b.txt" := "new" ]> {[ "a.txt" := "edited" ]})
    None None.

(** Branches [main] (at the root) and [topic]; on [main], [a.txt] is edited
    and [b.txt] is untracked. *)
Definition busy_repo : Repository :=
  mkRepository
    [root_commit; mkCommitData [0%nat] {[ "a.txt" := "topic" ]} "topic work"]
    (<[ "topic" := 1%nat ]> {[ "main" := 0%nat ]}) (Symbolic "main")
    (mkIndex {[ "a.txt" := "one" ]} ∅)
    (<[ "b.txt" := "new" ]> {[ "a.txt" := "edited" ]})
    None None.

(** [busy_repo] after [save_wip]: the changes are stashed on [main#wip]
    and HEAD is on it. *)
Definition busy_stashed_repo : Repository :=
  mkRepository
    [root_commit; mkCommitData [0%nat] {[ "a.txt" := "topic" ]} "topic work";
     mkCommitData [0%nat] (<[ "b.txt" := "new" ]> {[ "a.txt" := "edited" ]}) "WIP"]
    (<[ "main#wip" := 2%nat ]> (<[ "topic" := 1%nat ]> {[ "main" := 0%nat ]}))
    (Symbolic "main#wip")
    (mkIndex (<[ "b.txt" := "new" ]> {[ "a.txt" := "edited" ]}) ∅)
    (<[ "b.txt" := "new" ]> {[ "a.txt" := "edited" ]})
    None None.

(** [busy_repo] after switching to [topic]: the changes of [main] are
    stashed on [main#wip]. *)
Definition away_repo : Repository :=
  mkRepository
    [root_commit; mkCommitData [0%nat] {[ "a.txt" := "topic" ]} "topic work";
     mkCommitData [0%nat] (<[ "b.txt" := "new" ]> {[ "a.txt" := "edited" ]}) "WIP"]
    (<[ "main#wip" := 2%nat ]> (<[ "topic" := 1%nat ]> {[ "main" := 0%nat ]}))
    (Symbolic "topic")
    (mkIndex {[ "a.txt" := "topic" ]} ∅) {[ "a.txt" := "topic" ]}
    None None.

(** [main] and [topic] diverge from the root and change different files. *)
Definition disjoint_repo : Repository :=
  mkRepository
    [root_commit;
     mkCommitData [0%nat] (<[ "m.txt" := "main" ]> {[ "a.txt" := "one" ]}) "main work";
     mkCommitData [0%nat] (<[ "t.txt" := "topic" ]> {[ "a.txt" := "one" ]}) "topic work"]
    (<[ "topic" := 2%nat ]> {[ "main" := 1%nat ]}) (Symbolic "main")
    (mkIndex (<[ "m.txt" := "main" ]> {[ "a.txt" := "one" ]}) ∅)
    (<[ "m.txt" := "main" ]> {[ "a.txt" := "one" ]})
    None None.

(** A stash on [main#wip] taken during a merge of the root commit, which
    by now is an ancestor of [main]. *)
Definition outdated_stash_repo : Repository :=
  mkRepository
    [root_commit;
     mkCommitData [0%nat] {[ "a.txt" := "ours" ]} "main work";
     mkCommitData [1%nat; 0%nat] {[ "a.txt" := "ours" ]}
       ("WIP" +:+ String "010" "Absorbed 0")]
    (<[ "main#wip" := 2%nat ]> {[ "main" := 1%nat ]}) (Symbolic "main")
    (mkIndex {[ "a.txt" := "ours" ]} ∅) {[ "a.txt" := "ours" ]} None None.

(** [a.txt] is edited, and the index holds a conflict for a path that is
    not in the working directory, so staging does not settle it. *)
Definition unmerged_repo : Repository :=
  mkRepository [root_commit] {[ "main" := 0%nat ]} (Symbolic "main")
    (mkIndex {[ "a.txt" := "one" ]}
       {[ "gone.txt" := mkConflictSides None (Some "ours") (Some "theirs") ]})
    {[ "a.txt" := "edited" ]} None None.

(** The reference store, except that its merge analysis answers
    [GIT_MERGE_ANALYSIS_NONE] for every commit. *)
Definition none_store : Store := {|
  oid_str := ref_oid_str;
  oid_parse := ref_oid_parse;
  oid_parse_str := @oid_parse_str ref_store;
  oid_parse_hex := @oid_parse_hex ref_store;
  GIT_MERGE_ANALYSIS_NONE := 0;
  GIT_MERGE_ANALYSIS_NORMAL := 1;
  GIT_MERGE_ANALYSIS_UP_TO_DATE := 2;
  stage_all := ref_stage_all;
  tree_of_index := ref_tree_of_index;
  status_entrycount := ref_status_entrycount;
  analyse_merge := λ _ _, 0;
  merge_into := ref_merge_into;
  checkout_force := ref_checkout_force
|}.

(** [merging_repo] after the conflicted [a.txt] was deleted from the
    working directory: staging does not settle the conflict, so the store
    refuses to write the tree. *)
Definition stuck_merge_repo : Repository :=
  mkRepository (objects diverged_repo) (branches diverged_repo) (Symbolic "main")
    (mkIndex ∅ {[ "a.txt" := mkConflictSides None (Some "ours") (Some "theirs") ]})
    ∅ (Some 2%nat) (Some "Absorbed topic").

(** [merging_repo] after [save_wip]: the merge is stashed on [main#wip]. *)
Definition merge_stashed_repo : Repository :=
  mkRepository
    (objects diverged_repo
       ++ [mkCommitData [1%nat; 2%nat] {[ "a.txt" := "<<<ours===theirs>>>" ]}
             ("WIP" +:+ String "010" "Absorbed topic")])
    (<[ "main#wip" := 3%nat ]> (branches diverged_repo)) (Symbolic "main#wip")
    (mkIndex {[ "a.txt" := "<<<ours===theirs>>>" ]} ∅)
    {[ "a.txt" := "<<<ours===theirs>>>" ]} None None.


End Examples.

(** * Properties *)

Import Helper Metro.

(** [fsimpl] reduces the projections of updated repositories. *)
Tactic Notation "fsimpl" :=
  cbn [objects branches HEAD index workdir MERGE_HEAD MERGE_MSG
       set_objects set_branches set_HEAD set_index set_workdir
       set_MERGE_HEAD set_MERGE_MSG entries conflicts fst snd].

(** ** Strings *)

Section HelperFacts.

Lemma npos_value : npos = 2 ^ 64 - 1.
Proof. reflexivity. Qed.

Lemma to_size_t_small (z : Z) : 0 ≤ z < 2 ^ 64 → to_size_t z = z.
Proof. intros Hz. unfold to_size_t, SIZE_BITS. by apply Z.mod_small. Qed.

Lemma size_nonneg (s : string) : 0 ≤ size s.
Proof. unfold size. lia. Qed.

Lemma size_String (a : ascii) (s : string) : size (String a s) = size s + 1.
Proof. unfold size. simpl. lia. Qed.

Lemma append_nil_l (t : string) : EmptyString +:+ t = t.
Proof. reflexivity. Qed.

Lemma append_String (a : ascii) (s t : string) :
  String a s +:+ t = String a (s +:+ t).
Proof. reflexivity. Qed.

Lemma append_snoc (s t : string) (c : ascii) :
  (s +:+ String c EmptyString) +:+ t = s +:+ String c t.
Proof. induction s as [|x s IH]; [done|]. by rewrite !append_String, IH. Qed.

Lemma size_app (s t : string) : size (s +:+ t) = size s + size t.
Proof.
  induction s as [|a s IH]; [rewrite append_nil_l; unfold size; simpl; lia|].
  rewrite append_String, !size_String. lia.
Qed.

Lemma occurs_dec (c : ascii) (s : string) : {occurs c s} + {¬ occurs c s}.
Proof.
  induction s as [|a s IH]; simpl.
  - right. tauto.
  - destruct (decide (a = c)) as [->|Hne]; [left; by left|].
    destruct IH as [Hs|Hs]; [left; by right | right; tauto].
Qed.

Lemma find_from_nonneg (s : string) (c : ascii) (i : Z) : 0 ≤ find_from s c i.
Proof.
  revert i. induction s as [|a s IH]; intros i; simpl; [done|].
  destruct (Ascii.eqb a c); [|done].
  unfold to_size_t, SIZE_BITS. by apply Z.mod_pos_bound.
Qed.

Lemma find_from_absent (c : ascii) (s : string) (i : Z) :
  ¬ occurs c s → find_from s c i = npos.
Proof.
  revert i. induction s as [|a s IH]; intros i Hno; simpl in *; [done|].
  destruct (Ascii.eqb_spec a c) as [->|Hne]; [tauto|].
  apply IH. tauto.
Qed.

Lemma find_from_present (c : ascii) (s : string) (i : Z) :
  occurs c s → 0 ≤ i → i + size s < 2 ^ 64 →
  ∃ before after, s = before +:+ String c after ∧ ¬ occurs c before
                  ∧ find_from s c i = i + size before.
Proof.
  revert i. induction s as [|a s IH]; intros i Hocc Hi Hlen; simpl in *; [done|].
  rewrite size_String in Hlen. pose proof (size_nonneg s).
  destruct (Ascii.eqb_spec a c) as [->|Hne].
  - exists EmptyString, s. split_and!; [done | simpl; tauto |].
    rewrite to_size_t_small by lia. unfold size. simpl. lia.
  - destruct Hocc as [?|Hocc]; [done|].
    destruct (IH (i + 1) Hocc) as (b & a' & -> & Hb & Hf); [lia..|].
    exists (String a b), a'. split_and!; [done | simpl; tauto |].
    rewrite Hf, size_String. lia.
Qed.

Lemma substring_whole (s : string) : substring 0 (String.length s) s = s.
Proof. induction s as [|a s IH]; simpl; [done | by rewrite IH]. Qed.

Lemma substring_prefix (s t : string) :
  substring 0 (String.length s) (s +:+ t) = s.
Proof.
  induction s as [|a s IH]; [rewrite append_nil_l; by destruct t|].
  rewrite append_String. simpl. by rewrite IH.
Qed.

Lemma substring_suffix (s t : string) :
  substring (String.length s) (String.length t) (s +:+ t) = t.
Proof.
  induction s as [|a s IH]; [rewrite append_nil_l; simpl | by rewrite append_String].
  apply substring_whole.
Qed.

Lemma substring_full (n m : nat) (s : string) :
  (n + m = String.length s)%nat →
  s = substring 0 n s +:+ substring n m s.
Proof.
  revert s. induction n as [|n IH]; intros s Hs.
  - simpl in Hs. subst m. rewrite substring_whole. by destruct s.
  - destruct s as [|a s]; simpl in *; [lia|].
    rewrite append_String. f_equal. apply IH. lia.
Qed.

Lemma substr_prefix (s t : string) : substr (s +:+ t) 0 (size s) = Some s.
Proof.
  unfold substr. pose proof (size_nonneg (s +:+ t)).
  destruct (Z.ltb_spec (size (s +:+ t)) 0); [lia|].
  rewrite size_app, Z.sub_0_r, Z.min_l by (pose proof (size_nonneg t); lia).
  unfold size. rewrite Nat2Z.id. simpl. by rewrite substring_prefix.
Qed.

Lemma substr_suffix (s t : string) (n : Z) :
  size t ≤ n → substr (s +:+ t) (size s) n = Some t.
Proof.
  intros Hn. unfold substr. rewrite size_app. pose proof (size_nonneg t).
  destruct (Z.ltb_spec (size s + size t) (size s)); [lia|].
  replace (size s + size t - size s) with (size t) by lia.
  rewrite Z.min_r by lia. unfold size. rewrite !Nat2Z.id.
  by rewrite substring_suffix.
Qed.

Lemma has_suffix_app (p s : string) : has_suffix (p +:+ s) s = true.
Proof.
  unfold has_suffix, compare_eq0. rewrite size_app.
  pose proof (size_nonneg p).
  destruct (Z.leb_spec (size s) (size p + size s)); [|lia].
  replace (size p + size s - size s) with (size p) by lia.
  unfold size. rewrite !Nat2Z.id, substring_suffix. apply String.eqb_refl.
Qed.

Lemma has_suffix_inv (str s : string) :
  has_suffix str s = true → ∃ p, str = p +:+ s.
Proof.
  unfold has_suffix, compare_eq0.
  destruct (Z.leb_spec (size s) (size str)) as [Hle|]; [|done].
  intros E. apply String.eqb_eq in E.
  exists (substring 0 (Z.to_nat (size str - size s)) str).
  rewrite <- E at 2. apply substring_full. unfold size in *. lia.
Qed.

Lemma after_first_None (c : ascii) (s : string) :
  ¬ occurs c s → after_first c s = None.
Proof.
  induction s as [|a s IH]; simpl; [done|]. intros Hn.
  destruct (Ascii.eqb_spec a c); [tauto|]. apply IH. tauto.
Qed.

Lemma after_first_app (c : ascii) (before after : string) :
  ¬ occurs c before → after_first c (before +:+ String c after) = Some after.
Proof.
  induction before as [|a s IH]; intros Hn.
  - rewrite append_nil_l. simpl. by rewrite Ascii.eqb_refl.
  - rewrite append_String. simpl in *.
    destruct (Ascii.eqb_spec a c); [tauto|]. apply IH. tauto.
Qed.

(** [substr] from one past the result of [find]: the text after the first
    [c], and the whole text when there is no [c] (then [find] is [npos]
    and [npos + 1] wraps to 0). *)
Lemma substr_after_find (msg : string) (c : ascii) :
  size msg < npos →
  substr msg (to_size_t (find msg c + 1)) npos = Some (default msg (after_first c msg)).
Proof.
  intros Hsz. rewrite npos_value in Hsz.
  destruct (occurs_dec c msg) as [Hocc|Hno].
  - destruct (find_from_present c msg 0 Hocc) as (b & a & -> & Hb & Hf); [lia..|].
    rewrite after_first_app by done. simpl.
    rewrite size_app, size_String in Hsz.
    pose proof (size_nonneg b). pose proof (size_nonneg a).
    unfold find. rewrite Hf, Z.add_0_l, to_size_t_small by lia.
    rewrite <- append_snoc.
    replace (size b + 1) with (size (b +:+ String c EmptyString)).
    2:{ rewrite size_app, size_String. unfold size. simpl. lia. }
    rewrite substr_suffix; [done|]. rewrite npos_value. lia.
  - rewrite after_first_None by done. simpl.
    unfold find. rewrite find_from_absent by done.
    change (to_size_t (npos + 1)) with 0.
    unfold substr. pose proof (size_nonneg msg).
    destruct (Z.ltb_spec (size msg) 0); [lia|].
    rewrite Z.sub_0_r, Z.min_r by (rewrite npos_value; lia).
    unfold size. rewrite Nat2Z.id. simpl. by rewrite substring_whole.
Qed.

(** C10: for every string [str] (a [std::string], hence shorter than
    [npos]) and character [c], [split_at_first] returns; when [c] does not
    occur in [str] it gives [before = str] and [after] empty, and otherwise
    [before] is the part of [str] strictly before the first [c] and [after]
    everything strictly after it. *)
Theorem split_at_first_spec (str : string) (c : ascii) :
  size str < npos →
  ∃ before after,
    split_at_first str c = Some (before, after)
    ∧ ((¬ occurs c str ∧ before = str ∧ after = EmptyString)
       ∨ (occurs c str ∧ str = before +:+ String c after ∧ ¬ occurs c before)).
Proof.
  intros Hsz. rewrite npos_value in Hsz.
  destruct (occurs_dec c str) as [Hocc|Hno].
  - destruct (find_from_present c str 0 Hocc) as (b & a & -> & Hb & Hf); [lia..|].
    exists b, a. split; [|right; done].
    rewrite size_app, size_String in Hsz.
    pose proof (size_nonneg b). pose proof (size_nonneg a).
    unfold split_at_first, find. rewrite Hf, Z.add_0_l.
    change (to_size_t (-1)) with (2 ^ 64 - 1).
    destruct (Z.eqb_spec (size b) (2 ^ 64 - 1)); [lia|].
    rewrite substr_prefix. simpl.
    rewrite to_size_t_small by lia.
    rewrite <- append_snoc.
    replace (size b + 1) with (size (b +:+ String c EmptyString)).
    2:{ rewrite size_app, size_String. unfold size. simpl. lia. }
    rewrite substr_suffix; [done|]. rewrite npos_value. lia.
  - exists str, EmptyString. split; [|left; done].
    unfold split_at_first, find. rewrite find_from_absent by done.
    by rewrite Z.eqb_refl.
Qed.

End HelperFacts.

(** ** Running the monad *)

Section MonadFacts.

Lemma bind_ok {A B} (m : M A) (k : A → M B) r a r' :
  m r = (Ok a, r') → Git.bind m k r = k a r'.
Proof. intros E. unfold Git.bind. by rewrite E. Qed.

Lemma bind_throw {A B} (m : M A) (k : A → M B) r e r' :
  m r = (Throw e, r') → Git.bind m k r = (Throw e, r').
Proof. intros E. unfold Git.bind. by rewrite E. Qed.

Lemma for_each_run {A B} (f : A → M B) (g : A → B) (l : list A) r :
  (∀ a, a ∈ l → f a r = (Ok (g a), r)) →
  Repo.for_each f l r = (Ok (g <$> l), r).
Proof.
  induction l as [|a l IH]; intros Hf; [done|].
  simpl. rewrite (bind_ok _ _ _ _ _ (Hf a (list_elem_of_here _ _))).
  rewrite (bind_ok _ _ _ _ _ (IH (λ x Hx, Hf x (list_elem_of_further _ _ _ Hx)))).
  done.
Qed.

End MonadFacts.

(** ** Revisions, branches and commits *)

Section StoreFacts.
Context `{Store}.

Lemma all_hex_app (s t : string) : all_hex (s +:+ t) = all_hex s && all_hex t.
Proof.
  induction s as [|a s IH]; [done|].
  rewrite append_String. simpl. rewrite IH. by rewrite andb_assoc.
Qed.

Lemma oid_parse_not_hex (s : string) : all_hex s = false → oid_parse s = None.
Proof.
  intros Hs. destruct (oid_parse s) as [o|] eqn:E; [|done].
  apply oid_parse_hex in E. congruence.
Qed.

Lemma oid_parse_wip (b : string) : oid_parse (b +:+ WIPString) = None.
Proof.
  apply oid_parse_not_hex. rewrite all_hex_app.
  replace (all_hex WIPString) with false by reflexivity. apply andb_false_r.
Qed.

Lemma wip_name_fresh (b : string) : b ≠ b +:+ WIPString.
Proof.
  intros E. apply (f_equal size) in E. rewrite size_app in E.
  change (size WIPString) with 4 in E. lia.
Qed.

Lemma wip_name_not_HEAD (b : string) : String.eqb (b +:+ WIPString) "HEAD" = false.
Proof.
  destruct (String.eqb_spec (b +:+ WIPString) "HEAD") as [E|]; [|done].
  pose proof (has_suffix_app b WIPString) as Hs. rewrite E in Hs. discriminate.
Qed.

Lemma wip_name_not_MERGE_HEAD (b : string) :
  String.eqb (b +:+ WIPString) "MERGE_HEAD" = false.
Proof.
  destruct (String.eqb_spec (b +:+ WIPString) "MERGE_HEAD") as [E|]; [|done].
  pose proof (has_suffix_app b WIPString) as Hs. rewrite E in Hs. discriminate.
Qed.

(** A name that does not end with the reserved suffix fails the test of
    [absorb] and [switch_branch], and conversely. *)
Lemma not_wip_name (name : string) :
  (∀ p, name ≠ p +:+ WIPString) → has_suffix name WIPString = false.
Proof.
  intros Hn. destruct (has_suffix name WIPString) eqn:E; [|done].
  apply has_suffix_inv in E as [p ->]. by destruct (Hn p).
Qed.

Lemma not_wip_suffix (name : string) :
  has_suffix name WIPString = false → ∀ p, name ≠ p +:+ WIPString.
Proof. intros E p ->. by rewrite has_suffix_app in E. Qed.

Lemma resolve_revision_HEAD r :
  Repo.resolve_revision "HEAD" r = Repo.head_oid r ≫= (λ o, Repo.lookup_commit o r).
Proof. unfold Repo.resolve_revision. by rewrite oid_parse_not_hex. Qed.

Lemma resolve_revision_MERGE_HEAD r :
  Repo.resolve_revision "MERGE_HEAD" r = MERGE_HEAD r ≫= (λ o, Repo.lookup_commit o r).
Proof. unfold Repo.resolve_revision. by rewrite oid_parse_not_hex. Qed.

Lemma resolve_revision_oid r o c :
  Repo.lookup_commit o r = Some c → Repo.resolve_revision (oid_str o) r = Some c.
Proof.
  intros E. unfold Repo.resolve_revision. rewrite oid_parse_str. simpl. by rewrite E.
Qed.

Lemma resolve_revision_wip r b :
  Repo.resolve_revision (b +:+ WIPString) r
  = branches r !! (b +:+ WIPString) ≫= (λ o, Repo.lookup_commit o r).
Proof.
  unfold Repo.resolve_revision.
  by rewrite oid_parse_wip, wip_name_not_HEAD, wip_name_not_MERGE_HEAD.
Qed.

Lemma lookup_commit_Some r o d :
  objects r !! o = Some d → Repo.lookup_commit o r = Some (mkCommit o d).
Proof. intros E. unfold Repo.lookup_commit. by rewrite E. Qed.

Lemma lookup_commit_id r o c : Repo.lookup_commit o r = Some c → id c = o.
Proof.
  unfold Repo.lookup_commit. destruct (objects r !! o); simpl; [|done].
  by intros [= <-].
Qed.

Lemma lookup_commit_data r o c :
  Repo.lookup_commit o r = Some c → objects r !! o = Some (data c).
Proof.
  unfold Repo.lookup_commit. destruct (objects r !! o); simpl; [|done].
  by intros [= <-].
Qed.

Lemma get_commit_run r rev c :
  Repo.resolve_revision rev r = Some c → get_commit rev r = (Ok c, r).
Proof.
  intros E. unfold get_commit, Repo.revparse_single, Git.bind, gets. by rewrite E.
Qed.

Lemma merge_ongoing_run r :
  merge_ongoing r
  = (Ok (bool_decide (is_Some (Repo.resolve_revision "MERGE_HEAD" r))), r).
Proof.
  unfold merge_ongoing, try_catch, Git.bind, Repo.revparse_single, gets.
  cbv [Git.bind gets from_option Git.ret throw].
  by destruct (Repo.resolve_revision "MERGE_HEAD" r) as [c|].
Qed.

Lemma merge_ongoing_true r :
  merge_ongoing r = (Ok true, r) ↔ ∃ c, Repo.resolve_revision "MERGE_HEAD" r = Some c.
Proof.
  rewrite merge_ongoing_run. split.
  - intros E. injection E as E. apply bool_decide_eq_true_1 in E. exact E.
  - intros Hc. by rewrite bool_decide_eq_true_2.
Qed.

Lemma merge_ongoing_false r :
  merge_ongoing r = (Ok false, r) ↔ Repo.resolve_revision "MERGE_HEAD" r = None.
Proof.
  rewrite merge_ongoing_run. split.
  - intros E. injection E as E. apply bool_decide_eq_false_1 in E.
    destruct (Repo.resolve_revision _ r); [|done]. destruct E. eauto.
  - intros ->. rewrite bool_decide_eq_false_2; [done|]. by intros [? ?].
Qed.

Lemma assert_merging_run r :
  merge_ongoing r = (Ok false, r) → assert_merging r = (Ok tt, r).
Proof. intros E. unfold assert_merging. by rewrite (bind_ok _ _ _ _ _ E). Qed.

Lemma assert_merging_throw r :
  merge_ongoing r = (Ok true, r) →
  assert_merging r = (Throw CurrentlyMergingException, r).
Proof. intros E. unfold assert_merging. by rewrite (bind_ok _ _ _ _ _ E). Qed.

Lemma has_uncommitted_changes_run r :
  has_uncommitted_changes r = (Ok (0 <? status_entrycount r)%nat, r).
Proof. reflexivity. Qed.

(** The scan of [current_branch_name] stops at the branch HEAD designates. *)
Lemma first_head_branch_run r (iter : list string) b :
  HEAD r = Symbolic b → b ∈ iter → first_head_branch iter r = (Ok b, r).
Proof.
  intros Hh. induction iter as [|x iter IH]; intros Hin.
  - by apply elem_of_nil in Hin.
  - simpl. unfold Git.bind, Repo.branch_is_head, gets. rewrite Hh.
    destruct (decide (b = x)) as [->|Hne].
    + by rewrite bool_decide_eq_true_2.
    + rewrite bool_decide_eq_false_2 by done. apply IH.
      apply elem_of_cons in Hin as [?|?]; done.
Qed.

Lemma current_branch_name_run r b o :
  HEAD r = Symbolic b → branches r !! b = Some o →
  current_branch_name r = (Ok b, r).
Proof.
  intros Hh Hb. unfold current_branch_name, Git.bind, Repo.new_branch_iterator, gets.
  apply first_head_branch_run; [done|].
  apply list_elem_of_fmap. exists (b, o). split; [done|].
  by apply elem_of_map_to_list.
Qed.

Lemma branch_exists_run r name :
  branch_exists name r = (Ok (bool_decide (is_Some (branches r !! name))), r).
Proof.
  unfold branch_exists, try_catch, Repo.lookup_branch.
  cbv [Git.bind gets from_option Git.ret throw].
  by destruct (branches r !! name) as [o|].
Qed.

Lemma delete_branch_try r name :
  try_catch (delete_branch name) catch_GitException (Git.ret tt) r
  = (Ok tt, set_branches (delete name (branches r)) r).
Proof.
  unfold delete_branch, Repo.lookup_branch, Repo.branch_delete, try_catch.
  cbv [Git.bind gets modify from_option Git.ret throw].
  destruct (branches r !! name) as [o|] eqn:E; simpl; [done|].
  rewrite delete_id by done. by destruct r.
Qed.

Lemma delete_branch_run r name o :
  branches r !! name = Some o →
  delete_branch name r = (Ok tt, set_branches (delete name (branches r)) r).
Proof.
  intros E. unfold delete_branch, Repo.lookup_branch, Repo.branch_delete.
  cbv [Git.bind gets modify from_option Git.ret throw]. by rewrite E.
Qed.

Lemma move_head_run r name o :
  branches r !! name = Some o →
  move_head name r = (Ok tt, set_HEAD (Symbolic name) r).
Proof.
  intros E. unfold move_head, Repo.lookup_branch, Repo.set_head.
  cbv [Git.bind gets modify from_option Git.ret throw]. by rewrite E.
Qed.

Lemma create_branch_run r name c :
  Repo.resolve_revision "HEAD" r = Some c →
  branches r !! name = None →
  create_branch name r = (Ok tt, set_branches (<[name := id c]> (branches r)) r).
Proof.
  intros Hc Hn. unfold create_branch.
  rewrite (bind_ok _ _ _ _ _ (get_commit_run _ _ _ Hc)).
  unfold Repo.create_branch. cbv [Git.bind gets modify throw]. by rewrite Hn.
Qed.

Lemma commit_parent_run r c n o d :
  parent_ids (data c) !! n = Some o → objects r !! o = Some d →
  Repo.commit_parent c n r = (Ok (mkCommit o d), r).
Proof.
  intros Hn Ho. unfold Repo.commit_parent. cbv [Git.bind gets].
  rewrite Hn. simpl. by rewrite (lookup_commit_Some _ _ _ Ho).
Qed.

Lemma commit_parents_run r c :
  Forall (λ o, is_Some (objects r !! o)) (parent_ids (data c)) →
  ∃ cs, Repo.commit_parents c r = (Ok cs, r) ∧ id <$> cs = parent_ids (data c).
Proof.
  intros Hall. exists (parent_handle r c <$> seq 0 (parentcount c)). split.
  - apply for_each_run. intros n Hn. apply elem_of_seq in Hn as [_ Hn].
    unfold parentcount in Hn. simpl in Hn.
    destruct (lookup_lt_is_Some_2 (parent_ids (data c)) n Hn) as [o Ho].
    rewrite Forall_lookup in Hall. destruct (Hall n o Ho) as [d Hd].
    rewrite (commit_parent_run _ _ _ _ _ Ho Hd).
    unfold parent_handle. by rewrite Ho; simpl; rewrite Hd.
  - unfold parentcount. apply list_eq. intros n.
    rewrite !list_lookup_fmap.
    destruct (parent_ids (data c) !! n) as [o|] eqn:Ho.
    + rewrite lookup_seq_lt by (by eapply lookup_lt_Some). simpl.
      unfold parent_handle. by rewrite Ho.
    + rewrite lookup_seq_ge; [done|]. by apply lookup_ge_None.
Qed.

End StoreFacts.

(** ** Committing *)

Section CommitFacts.
Context `{Store}.

Lemma commit_run r message parents t :
  tree_of_index (stage_all (index r) (workdir r)) = Some t →
  commit message parents r
  = (Ok tt, committed r (mkCommitData (id <$> parents) t message)).
Proof.
  intros Ht. unfold commit, Repo.index_add_all, Repo.index_write_tree,
    Repo.index_write, Repo.create_commit.
  cbv [Git.bind gets modify Git.ret from_option]. simpl. by rewrite Ht.
Qed.

Lemma commit_revs_run r message revs parents t :
  Forall2 (λ rev c, Repo.resolve_revision rev r = Some c) revs parents →
  tree_of_index (stage_all (index r) (workdir r)) = Some t →
  commit_revs message revs r
  = (Ok tt, committed r (mkCommitData (id <$> parents) t message)).
Proof.
  intros Hrevs Ht. unfold commit_revs.
  assert (Repo.for_each Repo.revparse_single revs r = (Ok parents, r)) as E.
  { clear Ht. induction Hrevs as [|rev c revs parents Hc _ IH]; [done|].
    simpl. rewrite (bind_ok _ _ _ _ _ (get_commit_run _ _ _ Hc)).
    by rewrite (bind_ok _ _ _ _ _ IH). }
  rewrite (bind_ok _ _ _ _ _ E). by apply commit_run.
Qed.

Lemma commit_revs_throw r message revs parents :
  Forall2 (λ rev c, Repo.resolve_revision rev r = Some c) revs parents →
  tree_of_index (stage_all (index r) (workdir r)) = None →
  commit_revs message revs r
  = (Throw GitException, set_index (stage_all (index r) (workdir r)) r).
Proof.
  intros Hrevs Ht. unfold commit_revs.
  assert (Repo.for_each Repo.revparse_single revs r = (Ok parents, r)) as E.
  { clear Ht. induction Hrevs as [|rev c revs parents Hc _ IH]; [done|].
    simpl. rewrite (bind_ok _ _ _ _ _ (get_commit_run _ _ _ Hc)).
    by rewrite (bind_ok _ _ _ _ _ IH). }
  rewrite (bind_ok _ _ _ _ _ E).
  unfold commit, Repo.index_add_all, Repo.index_write_tree.
  cbv [Git.bind gets modify from_option throw]. fsimpl. by rewrite Ht.
Qed.

Lemma committed_objects r c : objects (committed r c) = (objects r ++ [c])%list.
Proof. unfold committed, Repo.update_HEAD_target. fsimpl. by destruct (HEAD r). Qed.

Lemma committed_index r c : index (committed r c) = stage_all (index r) (workdir r).
Proof. unfold committed, Repo.update_HEAD_target. fsimpl. by destruct (HEAD r). Qed.

Lemma committed_workdir r c : workdir (committed r c) = workdir r.
Proof. unfold committed, Repo.update_HEAD_target. fsimpl. by destruct (HEAD r). Qed.

Lemma committed_MERGE_HEAD r c : MERGE_HEAD (committed r c) = MERGE_HEAD r.
Proof. unfold committed, Repo.update_HEAD_target. fsimpl. by destruct (HEAD r). Qed.

Lemma committed_MERGE_MSG r c : MERGE_MSG (committed r c) = MERGE_MSG r.
Proof. unfold committed, Repo.update_HEAD_target. fsimpl. by destruct (HEAD r). Qed.

Lemma committed_head_oid r c :
  Repo.head_oid (committed r c) = Some (length (objects r)).
Proof.
  unfold committed, Repo.update_HEAD_target, Repo.head_oid. fsimpl.
  destruct (HEAD r) eqn:E; fsimpl; rewrite ?E; [by rewrite lookup_insert_eq | done].
Qed.

Lemma committed_branches r c b :
  HEAD r = Symbolic b →
  HEAD (committed r c) = Symbolic b
  ∧ branches (committed r c) = <[b := length (objects r)]> (branches r).
Proof. intros Hb. unfold committed, Repo.update_HEAD_target. fsimpl. by rewrite Hb. Qed.

Lemma committed_HEAD r c :
  Repo.resolve_revision "HEAD" (committed r c) = Some (mkCommit (length (objects r)) c).
Proof.
  rewrite resolve_revision_HEAD, committed_head_oid. simpl.
  apply lookup_commit_Some. rewrite committed_objects.
  by rewrite lookup_app_r, Nat.sub_diag.
Qed.

Lemma delete_last_commit_soft_run r hc p d :
  Repo.resolve_revision "HEAD" r = Some hc →
  parent_ids (data hc) !! 0%nat = Some p →
  objects r !! p = Some d →
  delete_last_commit false r = (Ok tt, Repo.update_HEAD_target p r).
Proof.
  intros Hh Hp Hd. unfold delete_last_commit.
  rewrite (bind_ok _ _ _ _ _ (get_commit_run _ _ _ Hh)).
  unfold parentcount. destruct (parent_ids (data hc)) as [|p' ps] eqn:Eps; [done|].
  simpl. injection Hp as ->.
  erewrite bind_ok; [|apply (commit_parent_run _ _ 0%nat p d); [by rewrite Eps | done]].
  reflexivity.
Qed.

End CommitFacts.

(** ** Merging *)

Section MergeFacts.
Context `{Store}.

(** The test [analysis & (NONE | UP_TO_DATE)] looks for either flag. *)
Lemma reports_lor (a x y : Z) :
  Z.land a (Z.lor x y) ≠ 0 ↔ reports a x ∨ reports a y.
Proof.
  unfold reports. rewrite Z.land_lor_distr_r, Z.lor_eq_0_iff.
  destruct (decide (Z.land a x = 0)), (decide (Z.land a y = 0)); tauto.
Qed.

Lemma start_merge_run r name c :
  Repo.resolve_revision name r = Some c →
  start_merge name r =
    if decide (reports (analyse_merge r (id c)) GIT_MERGE_ANALYSIS_UP_TO_DATE
               ∨ reports (analyse_merge r (id c)) GIT_MERGE_ANALYSIS_NONE)
    then (Throw UnnecessaryMergeException, r)
    else if decide (reports (analyse_merge r (id c)) GIT_MERGE_ANALYSIS_NORMAL)
    then (Ok tt, merge_started r (id c) (default_merge_message name))
    else (Throw (UnsupportedOperationException "Non-normal absorb not supported."), r).
Proof.
  intros Hc. unfold start_merge.
  rewrite (bind_ok _ _ _ _ _ (get_commit_run _ _ _ Hc)).
  unfold Repo.merge_analysis. cbv [Git.bind gets].
  set (a := analyse_merge r (id c)).
  destruct (Z.eqb_spec
              (Z.land a (Z.lor GIT_MERGE_ANALYSIS_NONE GIT_MERGE_ANALYSIS_UP_TO_DATE)) 0)
    as [E|E]; simpl.
  - rewrite decide_False.
    2:{ intros Hr. apply (proj2 (reports_lor a _ _)) in E; [done|]. tauto. }
    destruct (Z.eqb_spec (Z.land a GIT_MERGE_ANALYSIS_NORMAL) 0) as [En|En].
    + by rewrite decide_False by (unfold reports; tauto).
    + rewrite decide_True by done.
      unfold Repo.merge, set_merge_message, Repo.write_all_MERGE_MSG, modify,
        merge_started.
      fold a. by destruct (merge_into r (id c)).
  - rewrite decide_True; [done|]. apply reports_lor in E. tauto.
Qed.

(** An analysis result with no flag set at all is a non-normal one: the
    first test cannot see it whatever the flag values are. *)
Lemma start_merge_no_flags r name c :
  Repo.resolve_revision name r = Some c →
  analyse_merge r (id c) = 0 →
  start_merge name r
  = (Throw (UnsupportedOperationException "Non-normal absorb not supported."), r).
Proof.
  intros Hc Ha. rewrite (start_merge_run _ _ _ Hc). unfold reports. rewrite Ha.
  rewrite !Z.land_0_l.
  rewrite decide_False by (by intros [?|?]). by rewrite decide_False by (by intros ?).
Qed.

End MergeFacts.

(** ** Stashing and unstashing *)

Section WipFacts.
Context `{Store}.

(** Up to its first commit, [save_wip] on a repository with something to
    stash reaches [on_wip_branch]: the stale WIP branch, if any, is
    replaced by one at the current head and HEAD is moved onto it. *)
Lemma save_wip_prefix {A} r b h hd (k : M A) :
  HEAD r = Symbolic b → branches r !! b = Some h → objects r !! h = Some hd →
  (name <- current_branch_name ;;
   try_catch (delete_branch (name +:+ WIPString)) catch_GitException (Git.ret tt) ;;;
   create_branch (name +:+ WIPString) ;;;
   move_head (name +:+ WIPString) ;;;
   k) r = k (on_wip_branch r b h).
Proof.
  intros Hh Hb Ho.
  rewrite (bind_ok _ _ _ _ _ (current_branch_name_run _ _ _ Hh Hb)).
  rewrite (bind_ok _ _ _ _ _ (delete_branch_try _ _)).
  set (w := b +:+ WIPString).
  set (r1 := set_branches (delete w (branches r)) r).
  assert (Repo.resolve_revision "HEAD" r1 = Some (mkCommit h hd)) as Hc.
  { rewrite resolve_revision_HEAD. unfold Repo.head_oid, r1. fsimpl. rewrite Hh.
    rewrite lookup_delete_ne by (symmetry; apply wip_name_fresh). rewrite Hb. simpl.
    by apply lookup_commit_Some. }
  rewrite (bind_ok _ _ _ _ _ (create_branch_run r1 w _ Hc (lookup_delete_eq _ _))).
  erewrite bind_ok; [|eapply move_head_run; fsimpl; apply lookup_insert_eq].
  unfold on_wip_branch, r1. fsimpl. by rewrite insert_delete_eq.
Qed.

Lemma on_wip_branch_HEAD r b h hd :
  objects r !! h = Some hd →
  Repo.resolve_revision "HEAD" (on_wip_branch r b h) = Some (mkCommit h hd).
Proof.
  intros Ho. rewrite resolve_revision_HEAD. unfold Repo.head_oid, on_wip_branch. fsimpl.
  rewrite lookup_insert_eq. simpl. by apply lookup_commit_Some.
Qed.

Lemma save_wip_unfold r b h hd :
  HEAD r = Symbolic b → branches r !! b = Some h → objects r !! h = Some hd →
  (0 <? status_entrycount r)%nat = true ∨ merge_ongoing r = (Ok true, r) →
  save_wip r =
    (merging <- merge_ongoing ;;
     if merging then
       message <- get_merge_message ;;
       commit_revs ("WIP" +:+ String "010" message) ["HEAD"; "MERGE_HEAD"] ;;;
       Repo.cleanup_state
     else
       commit_revs "WIP" ["HEAD"]) (on_wip_branch r b h).
Proof.
  intros Hh Hb Ho Hdirty. unfold save_wip.
  rewrite (bind_ok _ _ _ _ _ (has_uncommitted_changes_run r)).
  assert ((if (0 <? status_entrycount r)%nat then Git.ret true else merge_ongoing) r
          = (Ok true, r)) as E.
  { destruct (0 <? status_entrycount r)%nat; [done|]. by destruct Hdirty. }
  rewrite (bind_ok _ _ _ _ _ E). cbn [negb].
  by apply (save_wip_prefix r b h hd).
Qed.

Lemma save_wip_plain_run r b h hd t :
  HEAD r = Symbolic b → branches r !! b = Some h → objects r !! h = Some hd →
  (0 < status_entrycount r)%nat →
  merge_ongoing r = (Ok false, r) →
  tree_of_index (stage_all (index r) (workdir r)) = Some t →
  save_wip r = (Ok tt, committed (on_wip_branch r b h) (mkCommitData [h] t "WIP")).
Proof.
  intros Hh Hb Ho Hdirty Hm Ht.
  rewrite (save_wip_unfold r b h hd); [|done..|].
  2:{ left. by apply Nat.ltb_lt. }
  set (r1 := on_wip_branch r b h).
  assert (merge_ongoing r1 = (Ok false, r1)) as Hm1.
  { apply merge_ongoing_false. apply merge_ongoing_false in Hm.
    by rewrite resolve_revision_MERGE_HEAD in *. }
  rewrite (bind_ok _ _ _ _ _ Hm1). cbv iota.
  apply (commit_revs_run r1 _ _ [mkCommit h hd] t); [|done].
  repeat constructor. by apply on_wip_branch_HEAD.
Qed.

Lemma save_wip_merging_run r b h hd mc t :
  HEAD r = Symbolic b → branches r !! b = Some h → objects r !! h = Some hd →
  Repo.resolve_revision "MERGE_HEAD" r = Some mc →
  tree_of_index (stage_all (index r) (workdir r)) = Some t →
  save_wip r
  = (Ok tt,
     set_MERGE_MSG None (set_MERGE_HEAD None
       (committed (on_wip_branch r b h)
          (mkCommitData [h; id mc] t
             ("WIP" +:+ String "010" (default EmptyString (MERGE_MSG r))))))).
Proof.
  intros Hh Hb Ho Hmc Ht.
  assert (merge_ongoing r = (Ok true, r)) as Hm by (apply merge_ongoing_true; eauto).
  rewrite (save_wip_unfold r b h hd); [|done..|by right].
  set (r1 := on_wip_branch r b h).
  assert (Repo.resolve_revision "MERGE_HEAD" r1 = Some mc) as Hmc1
    by by rewrite resolve_revision_MERGE_HEAD in *.
  assert (merge_ongoing r1 = (Ok true, r1)) as Hm1 by (apply merge_ongoing_true; eauto).
  rewrite (bind_ok _ _ _ _ _ Hm1). cbv iota.
  unfold get_merge_message, Repo.read_all_MERGE_MSG.
  erewrite bind_ok; [|reflexivity].
  erewrite bind_ok;
    [|apply (commit_revs_run r1 _ _ [mkCommit h hd; mc] t); [|done]].
  - reflexivity.
  - repeat constructor; [by apply on_wip_branch_HEAD | done].
Qed.

Lemma checkout_tree_run r t : Repo.checkout_tree t r = (Ok tt, checked_out t r).
Proof.
  unfold Repo.checkout_tree, modify, checked_out.
  by destruct (checkout_force t (index r) (workdir r)).
Qed.

Lemma checkout_run r name c :
  Repo.resolve_revision name r = Some c →
  checkout name r = (Ok tt, checked_out (tree (data c)) r).
Proof.
  intros Hc. unfold checkout. rewrite (bind_ok _ _ _ _ _ (get_commit_run _ _ _ Hc)).
  apply checkout_tree_run.
Qed.

Lemma add_conflicts_run (cs : list StandaloneConflict) r :
  ∃ us, Repo.for_each Repo.index_add_conflict cs r
        = (Ok us, set_index (add_conflicts cs (index r)) r).
Proof.
  revert r. induction cs as [|c cs IH]; intros r.
  - exists []. simpl. unfold Git.ret. by destruct r.
  - simpl. unfold Repo.index_add_conflict at 1. cbv [Git.bind modify].
    destruct (IH (set_index (mkIndex (entries (index r))
                                     (<[c.1:=c.2]> (conflicts (index r)))) r))
      as [us ->].
    exists (tt :: us). by destruct r.
Qed.

Lemma add_conflicts_entries cs i : entries (add_conflicts cs i) = entries i.
Proof. revert i. induction cs as [|c cs IH]; intros i; [done|]. simpl. by rewrite IH. Qed.

(** Re-inserting the conflicts taken from a conflict map gives that map
    back, on top of whatever the index holds by then. *)
Lemma add_conflicts_lookup (m : gmap string ConflictSides) i p :
  conflicts (add_conflicts (map_to_list m) i) !! p
  = match m !! p with Some s => Some s | None => conflicts i !! p end.
Proof.
  assert (∀ cs, NoDup cs.*1 →
    conflicts (add_conflicts cs i) !! p
    = match (list_to_map cs : gmap string ConflictSides) !! p with
      | Some s => Some s | None => conflicts i !! p end) as Hgen.
  { intros cs. revert i. induction cs as [|[q s] cs IH]; intros i Hnd;
      [simpl; by rewrite lookup_empty|].
    rewrite fmap_cons in Hnd. apply NoDup_cons in Hnd as [Hq Hnd].
    change (add_conflicts ((q, s) :: cs) i)
      with (add_conflicts cs (mkIndex (entries i) (<[q := s]> (conflicts i)))).
    rewrite IH by done. cbn [conflicts].
    change (list_to_map ((q, s) :: cs))
      with (<[q := s]> (list_to_map cs : gmap string ConflictSides)).
    destruct (decide (q = p)) as [->|Hne].
    - by rewrite !lookup_insert_eq, (not_elem_of_list_to_map_1 cs p Hq).
    - by rewrite !lookup_insert_ne. }
  rewrite Hgen by apply NoDup_fst_map_to_list. by rewrite list_to_map_to_list.
Qed.

Lemma restore_wip_noop r b h :
  HEAD r = Symbolic b → branches r !! b = Some h →
  branches r !! (b +:+ WIPString) = None →
  restore_wip r = (Ok tt, r).
Proof.
  intros Hh Hb Hw. unfold restore_wip.
  rewrite (bind_ok _ _ _ _ _ (current_branch_name_run _ _ _ Hh Hb)).
  rewrite (bind_ok _ _ _ _ _ (branch_exists_run _ _)), Hw.
  by rewrite bool_decide_eq_false_2 by (by intros [? ?]).
Qed.

Lemma restore_wip_plain_run r b h w wd :
  HEAD r = Symbolic b → branches r !! b = Some h →
  branches r !! (b +:+ WIPString) = Some w → objects r !! w = Some wd →
  (length (parent_ids wd) ≤ 1)%nat →
  restore_wip r = (Ok tt, plain_restored b (tree wd) r).
Proof.
  intros Hh Hb Hw Hwd Hpar. unfold restore_wip.
  rewrite (bind_ok _ _ _ _ _ (current_branch_name_run _ _ _ Hh Hb)).
  rewrite (bind_ok _ _ _ _ _ (branch_exists_run _ _)), Hw.
  rewrite bool_decide_eq_true_2 by eauto. cbn [negb].
  assert (Repo.resolve_revision (b +:+ WIPString) r = Some (mkCommit w wd)) as Hc.
  { rewrite resolve_revision_wip, Hw. simpl. by apply lookup_commit_Some. }
  rewrite (bind_ok _ _ _ _ _ (get_commit_run _ _ _ Hc)).
  unfold parentcount. cbn [data id].
  destruct (Nat.ltb_spec 1 (length (parent_ids wd))); [lia|].
  erewrite bind_ok; [|reflexivity].
  rewrite (bind_ok _ _ _ _ _ (checkout_run _ _ _ Hc)). cbn [data tree].
  erewrite bind_ok; [|by apply (delete_branch_run _ _ w)].
  reflexivity.
Qed.

Lemma restore_wip_merge_run r b h w wd mh md :
  HEAD r = Symbolic b → branches r !! b = Some h →
  branches r !! (b +:+ WIPString) = Some w → objects r !! w = Some wd →
  parent_ids wd !! 1%nat = Some mh → objects r !! mh = Some md →
  ¬ (reports (analyse_merge r mh) GIT_MERGE_ANALYSIS_UP_TO_DATE
     ∨ reports (analyse_merge r mh) GIT_MERGE_ANALYSIS_NONE) →
  reports (analyse_merge r mh) GIT_MERGE_ANALYSIS_NORMAL →
  size (message wd) < npos →
  restore_wip r
  = (Ok tt, merge_restored b (tree wd) mh
              (default (message wd) (after_first "010" (message wd))) r).
Proof.
  intros Hh Hb Hw Hwd Hmh Hmd Hnu Hno Hsz. unfold restore_wip.
  rewrite (bind_ok _ _ _ _ _ (current_branch_name_run _ _ _ Hh Hb)).
  rewrite (bind_ok _ _ _ _ _ (branch_exists_run _ _)), Hw.
  rewrite bool_decide_eq_true_2 by eauto. cbn [negb].
  assert (Repo.resolve_revision (b +:+ WIPString) r = Some (mkCommit w wd)) as Hc.
  { rewrite resolve_revision_wip, Hw. simpl. by apply lookup_commit_Some. }
  rewrite (bind_ok _ _ _ _ _ (get_commit_run _ _ _ Hc)).
  unfold parentcount. cbn [data id].
  destruct (Nat.ltb_spec 1 (length (parent_ids wd))) as [_|Hle].
  2:{ apply lookup_lt_Some in Hmh. lia. }
  set (mm := default (message wd) (after_first "010" (message wd))).
  set (r2 := set_MERGE_MSG (Some mm)
               (merge_started r mh (default_merge_message (oid_str mh)))).
  set (cs := map_to_list (conflicts (index r2))).
  set (r3 := set_index (mkIndex (entries (index r2)) ∅) r2).
  erewrite (bind_ok _ _ r cs r3).
  - assert (Repo.resolve_revision (b +:+ WIPString) r3 = Some (mkCommit w wd)) as Hc3.
    { rewrite resolve_revision_wip. unfold r3, r2, merge_started. fsimpl.
      rewrite Hw. simpl. by apply lookup_commit_Some. }
    rewrite (bind_ok _ _ _ _ _ (checkout_run _ _ _ Hc3)). cbn [data tree].
    erewrite bind_ok; [|by apply (delete_branch_run _ _ w)].
    destruct (add_conflicts_run cs
                (set_branches
                   (delete (b +:+ WIPString) (branches (checked_out (tree wd) r3)))
                   (checked_out (tree wd) r3))) as [us Hus].
    rewrite (bind_ok _ _ _ _ _ Hus). reflexivity.
  - erewrite bind_ok; [|by apply (commit_parent_run _ _ 1%nat mh md)].
    cbn [id data].
    assert (Repo.resolve_revision (oid_str mh) r = Some (mkCommit mh md)) as Hr
      by (apply resolve_revision_oid; by apply lookup_commit_Some).
    erewrite bind_ok.
    2:{ rewrite (start_merge_run _ _ _ Hr). cbn [id].
        by rewrite decide_False, decide_True. }
    destruct (Z.leb_spec 0 (find (message wd) "010")) as [_|Hneg].
    2:{ pose proof (find_from_nonneg (message wd) "010" 0). unfold find in Hneg. lia. }
    unfold substr_or_throw. rewrite substr_after_find by done. fold mm.
    reflexivity.
Qed.

Lemma merge_restored_fields b t mh mm r :
  let r' := merge_restored b t mh mm r in
  let im := (merge_into r mh).1 in
  let wm := (merge_into r mh).2 in
  HEAD r' = HEAD r
  ∧ objects r' = objects r
  ∧ branches r' = delete (b +:+ WIPString) (branches r)
  ∧ MERGE_HEAD r' = Some mh
  ∧ MERGE_MSG r' = Some mm
  ∧ workdir r' = (checkout_force t (mkIndex (entries im) ∅) wm).2
  ∧ entries (index r') = entries (checkout_force t (mkIndex (entries im) ∅) wm).1
  ∧ (∀ p s, conflicts im !! p = Some s → conflicts (index r') !! p = Some s).
Proof.
  unfold merge_restored, checked_out, merge_started. fsimpl.
  split_and!; try done.
  - by rewrite add_conflicts_entries.
  - intros p s Hp. rewrite add_conflicts_lookup. by rewrite Hp.
Qed.

End WipFacts.

(** ** The workflow operations *)

Section Workflow.
Context `{Store}.

(** C4: on a repository whose status list is empty (no index or
    working-directory difference, untracked files included) and in which no
    merge is in progress, [save_wip] returns normally and leaves the whole
    repository as it was: no branch is created or deleted, no commit is
    created and head is unchanged. *)
Theorem save_wip_clean_noop r :
  status_entrycount r = 0%nat →
  merge_ongoing r = (Ok false, r) →
  save_wip r = (Ok tt, r).
Proof.
  intros Hclean Hm. unfold save_wip.
  rewrite (bind_ok _ _ _ _ _ (has_uncommitted_changes_run r)), Hclean. simpl.
  by rewrite (bind_ok _ _ _ _ _ Hm).
Qed.

(** C9: for every name ending with the reserved WIP suffix, [absorb] and
    [switch_branch] throw [UnsupportedOperationException] with the
    repository untouched, whether or not a branch of that name exists (the
    suffix test comes first); and for a name without the suffix that is not
    a local branch, [switch_branch] throws [BranchNotFoundException] with
    the repository untouched. *)
Theorem wip_names_rejected r p :
  absorb (p +:+ WIPString) r
    = (Throw (UnsupportedOperationException "Can't absorb WIP branch."), r)
  ∧ switch_branch (p +:+ WIPString) r
    = (Throw (UnsupportedOperationException "Can't switch to WIP branch."), r)
  ∧ ∀ name, (∀ q, name ≠ q +:+ WIPString) → branches r !! name = None →
      switch_branch name r = (Throw BranchNotFoundException, r).
Proof.
  unfold absorb, switch_branch. rewrite has_suffix_app. split_and!; [done..|].
  intros name Hn Hb. rewrite (not_wip_name _ Hn).
  rewrite (bind_ok _ _ _ _ _ (branch_exists_run r name)), Hb.
  reflexivity.
Qed.


(** An analysis result with no flag set reaches [absorb]'s caller as
    [UnsupportedOperationException], whatever the flag values are. *)
Lemma absorb_no_flags r name c :
  (∀ p, name ≠ p +:+ WIPString) →
  merge_ongoing r = (Ok false, r) →
  Repo.resolve_revision name r = Some c →
  analyse_merge r (id c) = 0 →
  absorb name r
  = (Throw (UnsupportedOperationException "Non-normal absorb not supported."), r).
Proof.
  intros Hn Hm Hc Ha. unfold absorb. rewrite (not_wip_name _ Hn).
  rewrite (bind_ok _ _ _ _ _ (assert_merging_run _ Hm)).
  apply bind_throw. by apply (start_merge_no_flags r name c).
Qed.

(** C3, amended: on a repository that is not merging, for a name that does
    not end with the reserved WIP suffix and resolves to a commit whose
    merge analysis against the current head reports the up-to-date flag,
    [absorb] throws [UnnecessaryMergeException] and leaves the whole
    repository (head, branches, index, working directory, merge state) as
    it was. *)
Theorem absorb_unnecessary r name c :
  (∀ p, name ≠ p +:+ WIPString) →
  merge_ongoing r = (Ok false, r) →
  Repo.resolve_revision name r = Some c →
  reports (analyse_merge r (id c)) GIT_MERGE_ANALYSIS_UP_TO_DATE →
  absorb name r = (Throw UnnecessaryMergeException, r).
Proof.
  intros Hn Hm Hc Ha. unfold absorb. rewrite (not_wip_name _ Hn).
  rewrite (bind_ok _ _ _ _ _ (assert_merging_run _ Hm)).
  apply bind_throw. rewrite (start_merge_run _ _ _ Hc).
  rewrite decide_True; [done | by left].
Qed.

(** C6: when no merge is in progress [resolve] throws
    [NotMergingException] and leaves the repository as it was.  When a
    merge is in progress (head at [hc], merge head [mc]) and the store
    writes the tree, [resolve] returns; the new head commit has parents
    exactly [[hc; mc]] and the merge message that was stored before the
    merge state was cleared; the index was cleared of conflicts before
    staging; and no merge is in progress afterwards. *)
Theorem resolve_outcomes r :
  (merge_ongoing r = (Ok false, r) → resolve r = (Throw NotMergingException, r))
  ∧ (∀ hc mc t,
       Repo.resolve_revision "HEAD" r = Some hc →
       Repo.resolve_revision "MERGE_HEAD" r = Some mc →
       tree_of_index (stage_all (mkIndex (entries (index r)) ∅) (workdir r)) = Some t →
       ∃ r', resolve r = (Ok tt, r')
         ∧ Repo.resolve_revision "HEAD" r'
           = Some (mkCommit (length (objects r))
                     (mkCommitData [id hc; id mc] t (default EmptyString (MERGE_MSG r))))
         ∧ objects r'
           = (objects r
              ++ [mkCommitData [id hc; id mc] t (default EmptyString (MERGE_MSG r))])%list
         ∧ index r' = stage_all (mkIndex (entries (index r)) ∅) (workdir r)
         ∧ workdir r' = workdir r
         ∧ MERGE_HEAD r' = None ∧ MERGE_MSG r' = None
         ∧ merge_ongoing r' = (Ok false, r')).
Proof.
  split.
  - intros Hm. unfold resolve. by rewrite (bind_ok _ _ _ _ _ Hm).
  - intros hc mc t Hh Hmh Ht.
    assert (merge_ongoing r = (Ok true, r)) as Hm by (apply merge_ongoing_true; eauto).
    set (r1 := set_index (mkIndex (entries (index r)) ∅)
                 (set_MERGE_MSG None (set_MERGE_HEAD None r))).
    set (c := mkCommitData [id hc; id mc] t (default EmptyString (MERGE_MSG r))).
    exists (committed r1 c).
    assert (resolve r = (Ok tt, committed r1 c)) as Hrun.
    { unfold resolve. rewrite (bind_ok _ _ _ _ _ Hm). simpl.
      unfold merge_head_id.
      rewrite (bind_ok _ _ _ _ _ (bind_ok _ _ _ _ _ (get_commit_run _ _ _ Hmh))).
      unfold get_merge_message, Repo.read_all_MERGE_MSG, Repo.cleanup_state,
        Repo.index_cleanup_conflicts.
      cbv [Git.bind gets modify Git.ret]. fold r1.
      apply (commit_revs_run r1 _ _ [hc; mc]); [|done].
      rewrite resolve_revision_MERGE_HEAD in Hmh.
      destruct (MERGE_HEAD r) as [o|]; simpl in Hmh; [|done].
      repeat constructor.
      + by rewrite resolve_revision_HEAD in *.
      + rewrite <- (lookup_commit_id _ _ _ Hmh) in Hmh.
        by apply resolve_revision_oid. }
    split_and!; [done | by rewrite committed_HEAD | by rewrite committed_objects
                | by rewrite committed_index | by rewrite committed_workdir
                | by rewrite committed_MERGE_HEAD | by rewrite committed_MERGE_MSG |].
    apply merge_ongoing_false. rewrite resolve_revision_MERGE_HEAD.
    by rewrite committed_MERGE_HEAD.
Qed.

(** C8: [patch] throws [CurrentlyMergingException] while a merge is in
    progress; otherwise, when the head commit has no parent, it throws
    [UnsupportedOperationException]; both leave the repository as it was.
    Otherwise (the parents are stored and the store writes the tree) the
    soft reset inside [patch] leaves index and working directory untouched,
    and [patch] returns with head at a new commit that has the parent list
    of the replaced commit, the given message and the tree staged from the
    current working directory; the working directory is unchanged and the
    branch head was on now points at the new commit. *)
Theorem patch_outcomes r message :
  (merge_ongoing r = (Ok true, r) →
     patch message r = (Throw CurrentlyMergingException, r))
  ∧ (∀ hc, merge_ongoing r = (Ok false, r) →
       Repo.resolve_revision "HEAD" r = Some hc →
       parent_ids (data hc) = [] →
       patch message r
       = (Throw (UnsupportedOperationException "Can't delete initial commit."), r))
  ∧ (∀ hc t, merge_ongoing r = (Ok false, r) →
       Repo.resolve_revision "HEAD" r = Some hc →
       parent_ids (data hc) ≠ [] →
       Forall (λ o, is_Some (objects r !! o)) (parent_ids (data hc)) →
       tree_of_index (stage_all (index r) (workdir r)) = Some t →
       ∃ r1 r',
         delete_last_commit false r = (Ok tt, r1)
         ∧ index r1 = index r ∧ workdir r1 = workdir r
         ∧ patch message r = (Ok tt, r')
         ∧ Repo.resolve_revision "HEAD" r'
           = Some (mkCommit (length (objects r))
                     (mkCommitData (parent_ids (data hc)) t message))
         ∧ objects r'
           = (objects r ++ [mkCommitData (parent_ids (data hc)) t message])%list
         ∧ index r' = stage_all (index r) (workdir r)
         ∧ workdir r' = workdir r
         ∧ (∀ b, HEAD r = Symbolic b →
              HEAD r' = Symbolic b
              ∧ branches r' = <[b := length (objects r)]> (branches r))).
Proof.
  split_and!.
  - intros Hm. unfold patch. apply bind_throw. by apply assert_merging_throw.
  - intros hc Hm Hh Hps. unfold patch.
    rewrite (bind_ok _ _ _ _ _ (assert_merging_run _ Hm)).
    rewrite (bind_ok _ _ _ _ _ (get_commit_run _ _ _ Hh)).
    destruct (commit_parents_run r hc) as (cs & Hcs & _); [by rewrite Hps|].
    rewrite (bind_ok _ _ _ _ _ Hcs).
    apply bind_throw. unfold delete_last_commit.
    rewrite (bind_ok _ _ _ _ _ (get_commit_run _ _ _ Hh)).
    unfold parentcount. by rewrite Hps.
  - intros hc t Hm Hh Hps Hall Ht.
    destruct (parent_ids (data hc)) as [|p ps] eqn:Eps; [done|].
    destruct (commit_parents_run r hc) as (cs & Hcs & Hids); [by rewrite Eps|].
    rewrite Eps in Hids.
    pose proof (Forall_inv Hall) as [d Hd].
    assert (delete_last_commit false r = (Ok tt, Repo.update_HEAD_target p r)) as Hdel.
    { eapply delete_last_commit_soft_run; [done | by rewrite Eps | done]. }
    set (r1 := Repo.update_HEAD_target p r).
    assert (index r1 = index r ∧ workdir r1 = workdir r ∧ objects r1 = objects r)
      as (Hi1 & Hw1 & Ho1).
    { unfold r1, Repo.update_HEAD_target. by destruct (HEAD r). }
    exists r1, (committed r1 (mkCommitData (p :: ps) t message)).
    split_and!; [done | done | done | | | | | |].
    + unfold patch.
      rewrite (bind_ok _ _ _ _ _ (assert_merging_run _ Hm)).
      rewrite (bind_ok _ _ _ _ _ (get_commit_run _ _ _ Hh)).
      rewrite (bind_ok _ _ _ _ _ Hcs).
      rewrite (bind_ok _ _ _ _ _ Hdel). fold r1.
      rewrite <- Hids. apply commit_run. by rewrite Hi1, Hw1.
    + by rewrite committed_HEAD, Ho1.
    + by rewrite committed_objects, Ho1.
    + by rewrite committed_index, Hi1, Hw1.
    + by rewrite committed_workdir.
    + intros b Hb.
      assert (HEAD r1 = Symbolic b ∧ branches r1 = <[b := p]> (branches r)) as [Hb1 Hbr1].
      { unfold r1, Repo.update_HEAD_target. by rewrite Hb. }
      destruct (committed_branches r1 (mkCommitData (p :: ps) t message) b Hb1) as [-> ->].
      by rewrite Hbr1, Ho1, insert_insert_eq.
Qed.

(** C5: with head on branch [b] at commit [h].  When the store writes the
    tree, [save_wip] on a repository with uncommitted changes and no merge
    in progress returns with a new commit on the WIP branch of [b] whose
    only parent is [h] and whose message is ["WIP"]; with a merge in
    progress (merge head [mc]) the new commit has exactly the parents
    [[h; mc]] and the message ["WIP\n"] followed by the stored merge
    message, and no merge is in progress afterwards.  The merge state is
    cleared only after that commit is created: the state [r1] that already
    holds the commit still has the merge in progress, and when the store
    refuses to write the tree, so that no commit is created, [save_wip]
    throws with merge head and merge message still in place. *)
Theorem save_wip_commit_shape r b h hd :
  HEAD r = Symbolic b → branches r !! b = Some h → objects r !! h = Some hd →
  (∀ t, tree_of_index (stage_all (index r) (workdir r)) = Some t →
     merge_ongoing r = (Ok false, r) → (0 < status_entrycount r)%nat →
     ∃ r', save_wip r = (Ok tt, r')
       ∧ objects r' = (objects r ++ [mkCommitData [h] t "WIP"])%list
       ∧ HEAD r' = Symbolic (b +:+ WIPString)
       ∧ branches r' = <[b +:+ WIPString := length (objects r)]> (branches r))
  ∧ (∀ t mc, tree_of_index (stage_all (index r) (workdir r)) = Some t →
     Repo.resolve_revision "MERGE_HEAD" r = Some mc →
     ∃ r1 r',
       objects r1
       = (objects r
          ++ [mkCommitData [h; id mc] t
                ("WIP" +:+ String "010" (default EmptyString (MERGE_MSG r)))])%list
       ∧ merge_ongoing r1 = (Ok true, r1)
       ∧ Repo.cleanup_state r1 = (Ok tt, r')
       ∧ save_wip r = (Ok tt, r')
       ∧ objects r' = objects r1
       ∧ HEAD r' = Symbolic (b +:+ WIPString)
       ∧ branches r' = <[b +:+ WIPString := length (objects r)]> (branches r)
       ∧ merge_ongoing r' = (Ok false, r')
       ∧ MERGE_HEAD r' = None ∧ MERGE_MSG r' = None)
  ∧ (∀ mc, tree_of_index (stage_all (index r) (workdir r)) = None →
     Repo.resolve_revision "MERGE_HEAD" r = Some mc →
     ∃ r', save_wip r = (Throw GitException, r')
       ∧ objects r' = objects r
       ∧ HEAD r' = Symbolic (b +:+ WIPString)
       ∧ MERGE_HEAD r' = MERGE_HEAD r ∧ MERGE_MSG r' = MERGE_MSG r
       ∧ merge_ongoing r' = (Ok true, r')).
Proof.
  intros Hh Hb Ho. split_and!.
  - intros t Ht Hm Hdirty. eexists. split; [by eapply save_wip_plain_run|].
    rewrite committed_objects.
    destruct (committed_branches (on_wip_branch r b h) (mkCommitData [h] t "WIP")
                (b +:+ WIPString) eq_refl) as [-> ->].
    unfold on_wip_branch. fsimpl. by rewrite insert_insert_eq.
  - intros t mc Ht Hmc.
    set (c := mkCommitData [h; id mc] t
                ("WIP" +:+ String "010" (default EmptyString (MERGE_MSG r)))).
    set (r1 := committed (on_wip_branch r b h) c).
    exists r1, (set_MERGE_MSG None (set_MERGE_HEAD None r1)).
    assert (objects r1 = (objects r ++ [c])%list) as Ho1
      by (unfold r1; by rewrite committed_objects).
    destruct (committed_branches (on_wip_branch r b h) c (b +:+ WIPString) eq_refl)
      as [Hh1 Hb1]. fold r1 in Hh1, Hb1.
    split_and!; [done | | done | by eapply save_wip_merging_run | done | done
                | | | done | done].
    + apply merge_ongoing_true. exists mc.
      rewrite resolve_revision_MERGE_HEAD in *. unfold r1.
      rewrite committed_MERGE_HEAD.
      change (MERGE_HEAD (on_wip_branch r b h)) with (MERGE_HEAD r).
      destruct (MERGE_HEAD r) as [o|]; [|done]. simpl in *.
      pose proof (lookup_commit_data _ _ _ Hmc) as Hd.
      pose proof (lookup_commit_id _ _ _ Hmc) as Hi.
      unfold Repo.lookup_commit. rewrite committed_objects.
      change (objects (on_wip_branch r b h)) with (objects r).
      rewrite (lookup_app_l_Some _ _ _ _ Hd). simpl. destruct mc. by simplify_eq/=.
    + fsimpl. rewrite Hb1. unfold on_wip_branch. fsimpl. by rewrite insert_insert_eq.
    + apply merge_ongoing_false. by rewrite resolve_revision_MERGE_HEAD.
  - intros mc Ht Hmc.
    assert (merge_ongoing r = (Ok true, r)) as Hm by (apply merge_ongoing_true; eauto).
    set (r1 := on_wip_branch r b h).
    assert (Repo.resolve_revision "MERGE_HEAD" r1 = Some mc) as Hmc1
      by by rewrite resolve_revision_MERGE_HEAD in *.
    assert (merge_ongoing r1 = (Ok true, r1)) as Hm1 by (apply merge_ongoing_true; eauto).
    exists (set_index (stage_all (index r1) (workdir r1)) r1). split.
    + rewrite (save_wip_unfold r b h hd); [|done..|by right]. fold r1.
      rewrite (bind_ok _ _ _ _ _ Hm1). cbv iota.
      unfold get_merge_message, Repo.read_all_MERGE_MSG.
      erewrite bind_ok; [|reflexivity].
      apply bind_throw.
      apply (commit_revs_throw r1 _ _ [mkCommit h hd; mc]); [|done].
      repeat constructor; [by apply on_wip_branch_HEAD | done].
    + unfold r1, on_wip_branch. fsimpl. split_and!; try done.
      apply merge_ongoing_true. exists mc.
      by rewrite resolve_revision_MERGE_HEAD in *.
Qed.

(** C2, as the code behaves: with head on [b], a WIP commit for [b] whose
    second parent is the stored commit [mh], a normal merge analysis and a
    WIP message shorter than [npos], [restore_wip] returns with the merge
    head set to [mh]; when the WIP commit message has a line break the
    merge message becomes everything after the first one; when it has no
    line break the merge message becomes the whole WIP commit message, so
    the default message written by [start_merge] is overwritten, because
    the test [newlineIndex >= 0] on a [size_t] always holds and
    [npos + 1] wraps to 0. *)
Theorem restore_wip_merge_message r b h w wd mh md :
  HEAD r = Symbolic b → branches r !! b = Some h →
  branches r !! (b +:+ WIPString) = Some w → objects r !! w = Some wd →
  parent_ids wd !! 1%nat = Some mh → objects r !! mh = Some md →
  ¬ (reports (analyse_merge r mh) GIT_MERGE_ANALYSIS_UP_TO_DATE
     ∨ reports (analyse_merge r mh) GIT_MERGE_ANALYSIS_NONE) →
  reports (analyse_merge r mh) GIT_MERGE_ANALYSIS_NORMAL →
  size (message wd) < npos →
  ∃ r', restore_wip r = (Ok tt, r')
    ∧ MERGE_HEAD r' = Some mh
    ∧ (∀ before after,
         message wd = before +:+ String "010" after → ¬ occurs "010" before →
         MERGE_MSG r' = Some after)
    ∧ (¬ occurs "010" (message wd) → MERGE_MSG r' = Some (message wd)).
Proof.
  intros Hh Hb Hw Hwd Hmh Hmd Hnu Hno Hsz.
  eexists. split; [by eapply restore_wip_merge_run|].
  destruct (merge_restored_fields b (tree wd) mh
              (default (message wd) (after_first "010" (message wd))) r)
    as (_ & _ & _ & Hm & Hmsg & _).
  split_and!; [done | |].
  - intros before after E Hb'. by rewrite Hmsg, E, after_first_app.
  - intros Hn. by rewrite Hmsg, after_first_None.
Qed.




End Workflow.

(** ** Further properties of the string helpers *)

Section MoreHelperFacts.

(** X1: [has_suffix str suff] holds exactly when [str] is some string
    followed by [suff]; in particular every string has the empty suffix
    and no string has a suffix longer than itself. *)
Theorem has_suffix_iff (str suff : string) :
  has_suffix str suff = true ↔ ∃ p, str = p +:+ suff.
Proof.
  split.
  - apply has_suffix_inv.
  - intros [p ->]. apply has_suffix_app.
Qed.

(** X2: [has_prefix str pre] holds exactly when [str] is [pre] followed by
    some string. *)
Theorem has_prefix_iff (str pre : string) :
  has_prefix str pre = true ↔ ∃ s, str = pre +:+ s.
Proof.
  unfold has_prefix, compare_eq0. split.
  - destruct (Z.leb_spec (size pre) (size str)) as [Hle|]; [|done].
    intros E. apply String.eqb_eq in E. unfold size in *.
    rewrite Nat2Z.id in E.
    exists (substring (String.length pre)
              (String.length str - String.length pre) str).
    rewrite <- E at 1. apply substring_full. lia.
  - intros [s ->]. rewrite size_app. pose proof (size_nonneg s).
    destruct (Z.leb_spec (size pre) (size pre + size s)); [|lia].
    unfold size. rewrite Nat2Z.id. simpl. rewrite substring_prefix.
    apply String.eqb_refl.
Qed.

(** X3: the merge message survives the WIP commit message.  [save_wip]
    writes ["WIP\n" + message]; the recovery in [restore_wip] ([find] of
    the line break, test [>= 0], [substr] from one past it) gives back
    exactly [message], also when [message] itself has line breaks or is
    empty. *)
Theorem wip_message_round_trip (message : string) :
  size message < npos - 4 →
  let commitMessage := "WIP" +:+ String "010" message in
  (0 <=? find commitMessage "010") = true
  ∧ substr commitMessage (to_size_t (find commitMessage "010" + 1)) npos
    = Some message.
Proof.
  intros Hsz commitMessage. split.
  - apply Z.leb_le. apply find_from_nonneg.
  - rewrite substr_after_find; [done|].
    unfold commitMessage.
    change ("WIP" +:+ String "010" message)
      with (String "W" (String "I" (String "P" (String "010" message)))).
    rewrite !size_String. lia.
Qed.

End MoreHelperFacts.

(** ** Further properties of branches and head *)

Section BranchFacts.
Context `{Store}.

Lemma first_head_branch_none r (iter : list string) :
  (∀ b, b ∈ iter → HEAD r ≠ Symbolic b) →
  first_head_branch iter r = (Throw BranchNotFoundException, r).
Proof.
  induction iter as [|x iter IH]; intros Hno; [done|].
  simpl. unfold Git.bind, Repo.branch_is_head, gets.
  pose proof (Hno x (list_elem_of_here _ _)) as Hx.
  destruct (HEAD r) as [b|o] eqn:E.
  - rewrite bool_decide_eq_false_2 by congruence.
    apply IH. intros b' Hb'. apply Hno. by apply list_elem_of_further.
  - apply IH. intros b' Hb'. apply Hno. by apply list_elem_of_further.
Qed.

Lemma current_branch_name_throw r :
  (∀ b, HEAD r = Symbolic b → branches r !! b = None) →
  current_branch_name r = (Throw BranchNotFoundException, r).
Proof.
  intros Hno. unfold current_branch_name, Git.bind, Repo.new_branch_iterator, gets.
  apply first_head_branch_none. intros b Hb Hh.
  apply list_elem_of_fmap in Hb as [[b' o] [-> Hbo]].
  apply elem_of_map_to_list in Hbo. simpl in Hh.
  rewrite (Hno _ Hh) in Hbo. discriminate.
Qed.

(** X4: [current_branch_name] returns [b] exactly when HEAD is attached to
    the existing local branch [b]; with a detached HEAD, or with HEAD on a
    branch that does not exist (yet), it throws [BranchNotFoundException].
    It never changes the repository. *)
Theorem current_branch_name_spec r :
  (∀ b, current_branch_name r = (Ok b, r)
        ↔ HEAD r = Symbolic b ∧ is_Some (branches r !! b))
  ∧ ((¬ ∃ b, HEAD r = Symbolic b ∧ is_Some (branches r !! b))
     → current_branch_name r = (Throw BranchNotFoundException, r)).
Proof.
  assert ((¬ ∃ b, HEAD r = Symbolic b ∧ is_Some (branches r !! b))
          → current_branch_name r = (Throw BranchNotFoundException, r)) as Hthrow.
  { intros Hno. apply current_branch_name_throw. intros b Hb.
    destruct (branches r !! b) eqn:E; [|done]. destruct Hno. eauto. }
  split; [|done]. intros b. split.
  - intros Hrun.
    destruct (HEAD r) as [b'|o] eqn:Eh.
    + destruct (branches r !! b') as [o|] eqn:Eb.
      * rewrite (current_branch_name_run r b' o Eh Eb) in Hrun.
        injection Hrun as <-. eauto.
      * rewrite Hthrow in Hrun; [done|]. intros (b2 & [= <-] & [? ?]). congruence.
    + rewrite Hthrow in Hrun; [done|]. by intros (b2 & ? & _).
  - intros [Hh [o Ho]]. by eapply current_branch_name_run.
Qed.

(** X5: [move_head] to a missing branch throws and changes nothing; to an
    existing branch it attaches HEAD to it, touching nothing else, and
    [current_branch_name] then returns that name. *)
Theorem move_head_then_current_branch_name r name :
  (branches r !! name = None → move_head name r = (Throw GitException, r))
  ∧ (is_Some (branches r !! name) →
     move_head name r = (Ok tt, set_HEAD (Symbolic name) r)
     ∧ (move_head name ;;; current_branch_name) r
       = (Ok name, set_HEAD (Symbolic name) r)).
Proof.
  split.
  - intros E. unfold move_head, Repo.lookup_branch.
    cbv [Git.bind gets from_option throw]. by rewrite E.
  - intros [o Ho]. pose proof (move_head_run r name o Ho) as Hmv.
    split; [done|]. rewrite (bind_ok _ _ _ _ _ Hmv).
    by apply (current_branch_name_run _ name o).
Qed.

(** X6: [create_branch] puts a new branch at the head commit and throws,
    changing nothing, when the name is taken; [branch_exists] sees the new
    branch; [delete_branch] of it gives back exactly the repository from
    before, and [delete_branch] of a missing branch throws and changes
    nothing. *)
Theorem create_then_delete_branch r name c :
  Repo.resolve_revision "HEAD" r = Some c →
  (is_Some (branches r !! name) → create_branch name r = (Throw GitException, r))
  ∧ (branches r !! name = None →
     delete_branch name r = (Throw GitException, r)
     ∧ ∃ r1, create_branch name r = (Ok tt, r1)
         ∧ branches r1 !! name = Some (id c)
         ∧ branch_exists name r1 = (Ok true, r1)
         ∧ delete_branch name r1 = (Ok tt, r)).
Proof.
  intros Hc. split.
  - intros [o Ho]. unfold create_branch.
    rewrite (bind_ok _ _ _ _ _ (get_commit_run _ _ _ Hc)).
    unfold Repo.create_branch. cbv [Git.bind gets throw]. by rewrite Ho.
  - intros Hn. split.
    + unfold delete_branch, Repo.lookup_branch.
      cbv [Git.bind gets from_option throw]. by rewrite Hn.
    + eexists. split; [by apply create_branch_run|].
      split_and!.
      * fsimpl. apply lookup_insert_eq.
      * rewrite branch_exists_run. fsimpl. rewrite lookup_insert_eq.
        by rewrite bool_decide_eq_true_2 by eauto.
      * erewrite delete_branch_run by (fsimpl; apply lookup_insert_eq).
        fsimpl. rewrite delete_insert_id by done. by destruct r.
Qed.

(** X7: with HEAD detached (or on a branch that does not exist),
    [save_wip] on a repository that has something to stash, and
    [restore_wip] on any repository, throw [BranchNotFoundException] before
    touching anything: no branch, commit, index or merge state changes. *)
Theorem wip_needs_a_branch r :
  (¬ ∃ b, HEAD r = Symbolic b ∧ is_Some (branches r !! b)) →
  restore_wip r = (Throw BranchNotFoundException, r)
  ∧ ((0 < status_entrycount r)%nat ∨ merge_ongoing r = (Ok true, r) →
     save_wip r = (Throw BranchNotFoundException, r)).
Proof.
  intros Hno.
  assert (current_branch_name r = (Throw BranchNotFoundException, r)) as Hthrow.
  { apply current_branch_name_throw. intros b Hb.
    destruct (branches r !! b) eqn:E; [|done]. destruct Hno. eauto. }
  split.
  - unfold restore_wip. by apply bind_throw.
  - intros Hdirty. unfold save_wip.
    rewrite (bind_ok _ _ _ _ _ (has_uncommitted_changes_run r)).
    assert ((if (0 <? status_entrycount r)%nat then Git.ret true else merge_ongoing) r
            = (Ok true, r)) as E.
    { destruct (Nat.ltb_spec 0 (status_entrycount r)); [done|].
      destruct Hdirty; [lia | done]. }
    rewrite (bind_ok _ _ _ _ _ E). cbn [negb]. by apply bind_throw.
Qed.

End BranchFacts.

(** ** Further properties of commits and history *)

Section HistoryFacts.
Context `{Store}.

(** Whatever a revision resolves to is the stored commit of its own id. *)
Lemma resolve_revision_lookup r rev c :
  Repo.resolve_revision rev r = Some c → Repo.lookup_commit (id c) r = Some c.
Proof.
  assert (∀ oo : option OID,
            oo ≫= (λ o, Repo.lookup_commit o r) = Some c →
            Repo.lookup_commit (id c) r = Some c) as Hvia.
  { intros [o|] Ho; [|done]. simpl in Ho.
    by rewrite (lookup_commit_id _ _ _ Ho). }
  unfold Repo.resolve_revision.
  destruct (oid_parse rev ≫= (λ o, Repo.lookup_commit o r)) as [c'|] eqn:E.
  - intros [= ->]. by apply (Hvia (oid_parse rev)).
  - destruct (String.eqb rev "HEAD"); [apply Hvia|].
    destruct (String.eqb rev "MERGE_HEAD"); apply Hvia.
Qed.

Lemma get_commit_throw r rev :
  Repo.resolve_revision rev r = None → get_commit rev r = (Throw GitException, r).
Proof.
  intros E. unfold get_commit, Repo.revparse_single, Git.bind, gets. by rewrite E.
Qed.

Lemma update_HEAD_target_frame r o :
  objects (Repo.update_HEAD_target o r) = objects r
  ∧ index (Repo.update_HEAD_target o r) = index r
  ∧ workdir (Repo.update_HEAD_target o r) = workdir r
  ∧ MERGE_HEAD (Repo.update_HEAD_target o r) = MERGE_HEAD r
  ∧ MERGE_MSG (Repo.update_HEAD_target o r) = MERGE_MSG r
  ∧ Repo.head_oid (Repo.update_HEAD_target o r) = Some o.
Proof.
  unfold Repo.update_HEAD_target, Repo.head_oid.
  destruct (HEAD r) eqn:E; fsimpl; rewrite ?E; split_and!; try done.
  by rewrite lookup_insert_eq.
Qed.

(** X8: [delete_last_commit] throws [UnsupportedOperationException] on a
    parentless head commit and changes nothing.  Otherwise it moves head
    to the first parent and keeps every stored commit; the soft form
    leaves index and working directory as they are, the hard form sets
    them to the forced checkout of the parent's tree. *)
Theorem delete_last_commit_spec r reset hc :
  Repo.resolve_revision "HEAD" r = Some hc →
  (parent_ids (data hc) = [] →
     delete_last_commit reset r
     = (Throw (UnsupportedOperationException "Can't delete initial commit."), r))
  ∧ (∀ p d, parent_ids (data hc) !! 0%nat = Some p → objects r !! p = Some d →
     ∃ r', delete_last_commit reset r = (Ok tt, r')
       ∧ Repo.resolve_revision "HEAD" r' = Some (mkCommit p d)
       ∧ objects r' = objects r
       ∧ (index r', workdir r')
         = (if reset then checkout_force (tree d) (index r) (workdir r)
            else (index r, workdir r))).
Proof.
  intros Hh. split.
  - intros Hps. unfold delete_last_commit.
    rewrite (bind_ok _ _ _ _ _ (get_commit_run _ _ _ Hh)).
    unfold parentcount. by rewrite Hps.
  - intros p d Hp Hd.
    destruct (update_HEAD_target_frame r p) as (Fo & Fi & Fw & _ & _ & Fh).
    assert (delete_last_commit reset r
            = (Ok tt, if reset then checked_out (tree d) (Repo.update_HEAD_target p r)
                      else Repo.update_HEAD_target p r)) as Hrun.
    { unfold delete_last_commit.
      rewrite (bind_ok _ _ _ _ _ (get_commit_run _ _ _ Hh)).
      unfold parentcount.
      destruct (parent_ids (data hc)) as [|p' ps] eqn:Eps; [done|].
      simpl in Hp. injection Hp as ->. cbn [length Nat.eqb].
      erewrite bind_ok;
        [|apply (commit_parent_run _ _ 0%nat p d); [by rewrite Eps | done]].
      unfold Repo.reset_to_commit. cbn [id data].
      erewrite bind_ok; [|reflexivity].
      destruct reset; [apply checkout_tree_run | reflexivity]. }
    eexists. split; [exact Hrun|].
    destruct reset.
    + unfold checked_out. fsimpl. rewrite Fi, Fw. split_and!; [|done|].
      * rewrite resolve_revision_HEAD.
        change (Repo.head_oid (set_workdir _ (set_index _ (Repo.update_HEAD_target p r))))
          with (Repo.head_oid (Repo.update_HEAD_target p r)).
        rewrite Fh. simpl. unfold Repo.lookup_commit. fsimpl. by rewrite Fo, Hd.
      * by destruct (checkout_force _ _ _).
    + split_and!; [|done|by rewrite Fi, Fw].
      rewrite resolve_revision_HEAD, Fh. simpl.
      unfold Repo.lookup_commit. by rewrite Fo, Hd.
Qed.

Lemma revparse_all_run r (revs : list string) :
  (∃ cs, Forall2 (λ rev c, Repo.resolve_revision rev r = Some c) revs cs
         ∧ Repo.for_each Repo.revparse_single revs r = (Ok cs, r))
  ∨ ((∃ rev, rev ∈ revs ∧ Repo.resolve_revision rev r = None)
     ∧ Repo.for_each Repo.revparse_single revs r = (Throw GitException, r)).
Proof.
  induction revs as [|rev revs IH].
  - left. exists []. split; [constructor | done].
  - destruct (Repo.resolve_revision rev r) as [c|] eqn:E.
    + destruct IH as [(cs & Hcs & Hrun)|[(rev' & Hin & Hn) Hrun]].
      * left. exists (c :: cs). split; [by constructor|].
        simpl. rewrite (bind_ok _ _ _ _ _ (get_commit_run _ _ _ E)).
        by rewrite (bind_ok _ _ _ _ _ Hrun).
      * right. split; [exists rev'; split; [by apply list_elem_of_further | done]|].
        simpl. rewrite (bind_ok _ _ _ _ _ (get_commit_run _ _ _ E)).
        by apply bind_throw.
    + right. split; [exists rev; split; [apply list_elem_of_here | done]|].
      simpl. apply bind_throw. by apply get_commit_throw.
Qed.

(** X9: [commit] by parent revisions resolves every parent before it
    stages anything: if one of them does not resolve it throws and the
    repository, index included, is untouched.  If all resolve but the
    store cannot write the tree, it throws with the index already staged
    and no commit created nor any reference moved. *)
Theorem commit_revs_failures r message revs :
  ((∃ rev, rev ∈ revs ∧ Repo.resolve_revision rev r = None) →
     commit_revs message revs r = (Throw GitException, r))
  ∧ ((∀ rev, rev ∈ revs → is_Some (Repo.resolve_revision rev r)) →
     tree_of_index (stage_all (index r) (workdir r)) = None →
     commit_revs message revs r
     = (Throw GitException, set_index (stage_all (index r) (workdir r)) r)).
Proof.
  split.
  - intros (rev & Hin & Hn). unfold commit_revs. apply bind_throw.
    destruct (revparse_all_run r revs) as [(cs & Hcs & _)|[_ Hrun]]; [|done].
    apply list_elem_of_lookup in Hin as [i Hi].
    destruct (Forall2_lookup_l _ _ _ _ _ Hcs Hi) as (c & _ & Hc). congruence.
  - intros Hall Ht. unfold commit_revs.
    destruct (revparse_all_run r revs) as [(cs & _ & Hrun)|[(rev & Hin & Hn) _]].
    + rewrite (bind_ok _ _ _ _ _ Hrun).
      unfold commit, Repo.index_add_all, Repo.index_write_tree.
      cbv [Git.bind gets modify from_option throw]. fsimpl. by rewrite Ht.
    + destruct (Hall rev Hin) as [c Hc]. congruence.
Qed.

(** X10: a successful [commit] only adds: every commit stored before is
    still stored under its id, every branch other than the one HEAD is on
    keeps its target, the working directory and the merge state are
    untouched, and HEAD resolves to the new commit, which carries the given
    parents in order and the given message. *)
Theorem commit_revs_frame r message revs parents t :
  Forall2 (λ rev c, Repo.resolve_revision rev r = Some c) revs parents →
  tree_of_index (stage_all (index r) (workdir r)) = Some t →
  ∃ r', commit_revs message revs r = (Ok tt, r')
    ∧ Repo.resolve_revision "HEAD" r'
      = Some (mkCommit (length (objects r))
                (mkCommitData (id <$> parents) t message))
    ∧ (∀ o d, objects r !! o = Some d → objects r' !! o = Some d)
    ∧ (∀ b, HEAD r ≠ Symbolic b → branches r' !! b = branches r !! b)
    ∧ workdir r' = workdir r
    ∧ MERGE_HEAD r' = MERGE_HEAD r ∧ MERGE_MSG r' = MERGE_MSG r.
Proof.
  intros Hrevs Ht. eexists. split; [by eapply commit_revs_run|].
  split_and!.
  - apply committed_HEAD.
  - intros o d Ho. rewrite committed_objects. by apply lookup_app_l_Some.
  - intros b Hb. unfold committed, Repo.update_HEAD_target. fsimpl.
    destruct (HEAD r) as [b'|] eqn:E; fsimpl; [|done].
    rewrite lookup_insert_ne; [done|]. congruence.
  - apply committed_workdir.
  - apply committed_MERGE_HEAD.
  - apply committed_MERGE_MSG.
Qed.

End HistoryFacts.

(** ** Further properties of merging *)

Section MoreMergeFacts.
Context `{Store}.

Lemma resolve_run r hc mc t :
  Repo.resolve_revision "HEAD" r = Some hc →
  Repo.resolve_revision "MERGE_HEAD" r = Some mc →
  tree_of_index (stage_all (mkIndex (entries (index r)) ∅) (workdir r)) = Some t →
  resolve r
  = (Ok tt,
     committed (set_index (mkIndex (entries (index r)) ∅)
                  (set_MERGE_MSG None (set_MERGE_HEAD None r)))
       (mkCommitData [id hc; id mc] t (default EmptyString (MERGE_MSG r)))).
Proof.
  intros Hh Hmh Ht.
  assert (merge_ongoing r = (Ok true, r)) as Hm by (apply merge_ongoing_true; eauto).
  unfold resolve. rewrite (bind_ok _ _ _ _ _ Hm). cbn [negb].
  unfold merge_head_id.
  rewrite (bind_ok _ _ _ _ _ (bind_ok _ _ _ _ _ (get_commit_run _ _ _ Hmh))).
  unfold get_merge_message, Repo.read_all_MERGE_MSG, Repo.cleanup_state,
    Repo.index_cleanup_conflicts.
  cbv [Git.bind gets modify Git.ret].
  apply (commit_revs_run _ _ _ [hc; mc]); [|done].
  repeat constructor.
  - by rewrite resolve_revision_HEAD in *.
  - apply resolve_revision_oid.
    apply (resolve_revision_lookup r "MERGE_HEAD" mc Hmh).
Qed.

(** X11: [merge_head_id] throws when no merge is in progress; during a
    merge it returns the printed id of the merge head, and that string
    resolves back to the very commit [MERGE_HEAD] designates. *)
Theorem merge_head_id_round_trip r :
  (merge_ongoing r = (Ok false, r) → merge_head_id r = (Throw GitException, r))
  ∧ (merge_ongoing r = (Ok true, r) →
     ∃ c, get_commit "MERGE_HEAD" r = (Ok c, r)
       ∧ merge_head_id r = (Ok (oid_str (id c)), r)
       ∧ get_commit (oid_str (id c)) r = (Ok c, r)).
Proof.
  split.
  - intros Hm. apply merge_ongoing_false in Hm. unfold merge_head_id.
    apply bind_throw. by apply get_commit_throw.
  - intros Hm. apply merge_ongoing_true in Hm as [c Hc]. exists c.
    pose proof (get_commit_run _ _ _ Hc) as Hg. split_and!; [done | |].
    + unfold merge_head_id. by rewrite (bind_ok _ _ _ _ _ Hg).
    + apply get_commit_run, resolve_revision_oid.
      by apply (resolve_revision_lookup r "MERGE_HEAD").
Qed.

(** X12: for a name without the WIP suffix, [absorb] throws
    [CurrentlyMergingException] while a merge is in progress, the store's
    exception when the name does not resolve, and
    [UnsupportedOperationException] when the analysis reports neither
    up-to-date, none nor normal; in each case the repository is untouched. *)
Theorem absorb_rejections r name :
  (∀ p, name ≠ p +:+ WIPString) →
  (merge_ongoing r = (Ok true, r) →
     absorb name r = (Throw CurrentlyMergingException, r))
  ∧ (merge_ongoing r = (Ok false, r) →
     Repo.resolve_revision name r = None →
     absorb name r = (Throw GitException, r))
  ∧ (∀ c, merge_ongoing r = (Ok false, r) →
     Repo.resolve_revision name r = Some c →
     ¬ (reports (analyse_merge r (id c)) GIT_MERGE_ANALYSIS_UP_TO_DATE
        ∨ reports (analyse_merge r (id c)) GIT_MERGE_ANALYSIS_NONE) →
     ¬ reports (analyse_merge r (id c)) GIT_MERGE_ANALYSIS_NORMAL →
     absorb name r
     = (Throw (UnsupportedOperationException "Non-normal absorb not supported."), r)).
Proof.
  intros Hn. unfold absorb. rewrite (not_wip_name _ Hn). split_and!.
  - intros Hm. apply bind_throw. by apply assert_merging_throw.
  - intros Hm Hr. rewrite (bind_ok _ _ _ _ _ (assert_merging_run _ Hm)).
    apply bind_throw. unfold start_merge. apply bind_throw.
    by apply get_commit_throw.
  - intros c Hm Hc Hu Hnn. rewrite (bind_ok _ _ _ _ _ (assert_merging_run _ Hm)).
    apply bind_throw. rewrite (start_merge_run _ _ _ Hc).
    by rewrite !decide_False.
Qed.

Lemma merge_started_resolves r name c hc msg :
  Repo.resolve_revision name r = Some c →
  Repo.resolve_revision "HEAD" r = Some hc →
  Repo.resolve_revision "HEAD" (merge_started r (id c) msg) = Some hc
  ∧ Repo.resolve_revision "MERGE_HEAD" (merge_started r (id c) msg) = Some c.
Proof.
  intros Hc Hh. rewrite resolve_revision_HEAD in *. rewrite resolve_revision_MERGE_HEAD.
  split; [done|]. unfold merge_started. fsimpl. simpl.
  apply (resolve_revision_lookup r name c Hc).
Qed.

(** X13: [absorb] of a diverged commit whose merge leaves no conflict
    returns false ("no conflicts") with the merge already committed: head
    is at a new commit with exactly the two parents prior head and absorbed
    commit, in that order, and the message ["Absorbed " + name]; the working
    directory is the merge result and no merge is in progress. *)
Theorem absorb_without_conflicts r name c hc t :
  (∀ p, name ≠ p +:+ WIPString) →
  merge_ongoing r = (Ok false, r) →
  Repo.resolve_revision name r = Some c →
  Repo.resolve_revision "HEAD" r = Some hc →
  ¬ (reports (analyse_merge r (id c)) GIT_MERGE_ANALYSIS_UP_TO_DATE
     ∨ reports (analyse_merge r (id c)) GIT_MERGE_ANALYSIS_NONE) →
  reports (analyse_merge r (id c)) GIT_MERGE_ANALYSIS_NORMAL →
  conflicts (merge_into r (id c)).1 = ∅ →
  tree_of_index (stage_all (mkIndex (entries (merge_into r (id c)).1) ∅)
                   (merge_into r (id c)).2) = Some t →
  ∃ r', absorb name r = (Ok false, r')
    ∧ Repo.resolve_revision "HEAD" r'
      = Some (mkCommit (length (objects r))
                (mkCommitData [id hc; id c] t ("Absorbed " +:+ name)))
    ∧ workdir r' = (merge_into r (id c)).2
    ∧ merge_ongoing r' = (Ok false, r').
Proof.
  intros Hn Hm Hc Hh Hu Hno Hcf Ht.
  set (r1 := merge_started r (id c) (default_merge_message name)).
  destruct (merge_started_resolves r name c hc (default_merge_message name) Hc Hh)
    as [Hh1 Hm1]. fold r1 in Hh1, Hm1.
  eexists. split.
  - unfold absorb. rewrite (not_wip_name _ Hn).
    rewrite (bind_ok _ _ _ _ _ (assert_merging_run _ Hm)).
    erewrite bind_ok.
    2:{ rewrite (start_merge_run _ _ _ Hc). by rewrite decide_False, decide_True. }
    fold r1. unfold Repo.index_has_conflicts.
    erewrite bind_ok; [|reflexivity].
    replace (conflicts (index r1)) with (∅ : gmap string ConflictSides)
      by (symmetry; exact Hcf).
    rewrite bool_decide_eq_false_2 by (by intros ?).
    erewrite bind_ok; [reflexivity|].
    apply (resolve_run r1 hc c t); [done | done |]. exact Ht.
  - split_and!.
    + by rewrite committed_HEAD.
    + by rewrite committed_workdir.
    + apply merge_ongoing_false.
      by rewrite resolve_revision_MERGE_HEAD, committed_MERGE_HEAD.
Qed.

(** X14: [absorb] of a diverged commit whose merge leaves conflicts
    returns true ("conflicts remain") without committing anything: the
    merge stays open with the conflicts in the index and the message
    ["Absorbed " + name] stored.  A following [resolve] then commits with
    exactly the two parents prior head and absorbed commit and that
    message, from an index whose conflicts were cleared, and ends the
    merge. *)
Theorem absorb_with_conflicts_then_resolve r name c hc :
  (∀ p, name ≠ p +:+ WIPString) →
  merge_ongoing r = (Ok false, r) →
  Repo.resolve_revision name r = Some c →
  Repo.resolve_revision "HEAD" r = Some hc →
  ¬ (reports (analyse_merge r (id c)) GIT_MERGE_ANALYSIS_UP_TO_DATE
     ∨ reports (analyse_merge r (id c)) GIT_MERGE_ANALYSIS_NONE) →
  reports (analyse_merge r (id c)) GIT_MERGE_ANALYSIS_NORMAL →
  conflicts (merge_into r (id c)).1 ≠ ∅ →
  ∃ r1, absorb name r = (Ok true, r1)
    ∧ merge_ongoing r1 = (Ok true, r1)
    ∧ objects r1 = objects r ∧ branches r1 = branches r ∧ HEAD r1 = HEAD r
    ∧ (index r1, workdir r1) = merge_into r (id c)
    ∧ MERGE_MSG r1 = Some ("Absorbed " +:+ name)
    ∧ (∀ t, tree_of_index (stage_all (mkIndex (entries (index r1)) ∅) (workdir r1))
            = Some t →
       ∃ r2, resolve r1 = (Ok tt, r2)
         ∧ Repo.resolve_revision "HEAD" r2
           = Some (mkCommit (length (objects r))
                     (mkCommitData [id hc; id c] t ("Absorbed " +:+ name)))
         ∧ index r2 = stage_all (mkIndex (entries (index r1)) ∅) (workdir r1)
         ∧ merge_ongoing r2 = (Ok false, r2)).
Proof.
  intros Hn Hm Hc Hh Hu Hno Hcf.
  set (r1 := merge_started r (id c) (default_merge_message name)).
  destruct (merge_started_resolves r name c hc (default_merge_message name) Hc Hh)
    as [Hh1 Hm1]. fold r1 in Hh1, Hm1.
  exists r1. split_and!; try done.
  - unfold absorb. rewrite (not_wip_name _ Hn).
    rewrite (bind_ok _ _ _ _ _ (assert_merging_run _ Hm)).
    erewrite bind_ok.
    2:{ rewrite (start_merge_run _ _ _ Hc). by rewrite decide_False, decide_True. }
    fold r1. unfold Repo.index_has_conflicts.
    erewrite bind_ok; [|reflexivity].
    by rewrite bool_decide_eq_true_2 by exact Hcf.
  - apply merge_ongoing_true. eauto.
  - unfold r1, merge_started. fsimpl. by destruct (merge_into r (id c)).
  - intros t Ht. eexists. split; [by apply (resolve_run r1 hc c t)|].
    split_and!.
    + by rewrite committed_HEAD.
    + by rewrite committed_index.
    + apply merge_ongoing_false.
      by rewrite resolve_revision_MERGE_HEAD, committed_MERGE_HEAD.
Qed.

(** X15: a stash taken during a merge is kept when the merge cannot be
    restarted: if, on [restore_wip], the analysis of the stashed merge head
    reports up-to-date or none, or is not normal, [restore_wip] throws
    [start_merge]'s exception and the repository, WIP branch included, is
    exactly as before. *)
Theorem restore_wip_keeps_stash_on_failure r b h w wd mh md :
  HEAD r = Symbolic b → branches r !! b = Some h →
  branches r !! (b +:+ WIPString) = Some w → objects r !! w = Some wd →
  parent_ids wd !! 1%nat = Some mh → objects r !! mh = Some md →
  (reports (analyse_merge r mh) GIT_MERGE_ANALYSIS_UP_TO_DATE
     ∨ reports (analyse_merge r mh) GIT_MERGE_ANALYSIS_NONE →
   restore_wip r = (Throw UnnecessaryMergeException, r))
  ∧ (¬ (reports (analyse_merge r mh) GIT_MERGE_ANALYSIS_UP_TO_DATE
        ∨ reports (analyse_merge r mh) GIT_MERGE_ANALYSIS_NONE) →
     ¬ reports (analyse_merge r mh) GIT_MERGE_ANALYSIS_NORMAL →
     restore_wip r
     = (Throw (UnsupportedOperationException "Non-normal absorb not supported."), r)).
Proof.
  intros Hh Hb Hw Hwd Hmh Hmd.
  assert (∀ e, start_merge (oid_str mh) r = (Throw e, r) →
               restore_wip r = (Throw e, r)) as Hvia.
  { intros e He. unfold restore_wip.
    rewrite (bind_ok _ _ _ _ _ (current_branch_name_run _ _ _ Hh Hb)).
    rewrite (bind_ok _ _ _ _ _ (branch_exists_run _ _)), Hw.
    rewrite bool_decide_eq_true_2 by eauto. cbn [negb].
    assert (Repo.resolve_revision (b +:+ WIPString) r = Some (mkCommit w wd)) as Hc.
    { rewrite resolve_revision_wip, Hw. simpl. by apply lookup_commit_Some. }
    rewrite (bind_ok _ _ _ _ _ (get_commit_run _ _ _ Hc)).
    unfold parentcount. cbn [data id].
    destruct (Nat.ltb_spec 1 (length (parent_ids wd))) as [_|Hle].
    2:{ apply lookup_lt_Some in Hmh. lia. }
    apply bind_throw.
    erewrite bind_ok; [|by apply (commit_parent_run _ _ 1%nat mh md)].
    cbn [id]. by apply bind_throw. }
  assert (Repo.resolve_revision (oid_str mh) r = Some (mkCommit mh md)) as Hr
    by (apply resolve_revision_oid; by apply lookup_commit_Some).
  split.
  - intros Hu. apply Hvia. rewrite (start_merge_run _ _ _ Hr). cbn [id].
    by rewrite decide_True.
  - intros Hu Hnn. apply Hvia. rewrite (start_merge_run _ _ _ Hr). cbn [id].
    by rewrite !decide_False.
Qed.

End MoreMergeFacts.

(** ** Switching branches *)

Section SwitchFacts.
Context `{Store}.

(** A name that the store does not parse as an object id and that is
    neither of the two special names resolves as a local branch, in every
    repository. *)
Lemma resolve_revision_branch r name :
  oid_parse name = None → name ≠ "HEAD" → name ≠ "MERGE_HEAD" →
  Repo.resolve_revision name r
  = branches r !! name ≫= (λ o, Repo.lookup_commit o r).
Proof.
  intros Hx Hh Hm. unfold Repo.resolve_revision.
  rewrite Hx. simpl.
  destruct (String.eqb_spec name "HEAD"); [done|].
  by destruct (String.eqb_spec name "MERGE_HEAD").
Qed.

Lemma append_cancel_r (s t w : string) : s +:+ w = t +:+ w → s = t.
Proof.
  revert t. induction s as [|a s IH]; intros [|a' t] E.
  - done.
  - apply (f_equal size) in E. rewrite append_nil_l, size_app, size_String in E.
    pose proof (size_nonneg t). lia.
  - apply (f_equal size) in E. rewrite append_nil_l, size_app, size_String in E.
    pose proof (size_nonneg s). lia.
  - rewrite !append_String in E. injection E as -> E. f_equal. by apply IH.
Qed.

Lemma checked_out_frame t r :
  objects (checked_out t r) = objects r
  ∧ branches (checked_out t r) = branches r
  ∧ HEAD (checked_out t r) = HEAD r
  ∧ MERGE_HEAD (checked_out t r) = MERGE_HEAD r
  ∧ MERGE_MSG (checked_out t r) = MERGE_MSG r
  ∧ (index (checked_out t r), workdir (checked_out t r))
    = checkout_force t (index r) (workdir r).
Proof.
  unfold checked_out. fsimpl. split_and!; try done.
  by destruct (checkout_force _ _ _).
Qed.

(** The tail of [switch_branch] once [save_wip] is done. *)
Lemma switch_branch_tail r name o d :
  Repo.resolve_revision name r = Some (mkCommit o d) →
  branches r !! name = Some o →
  (checkout name ;;; move_head name ;;; restore_wip) r
  = restore_wip (set_HEAD (Symbolic name) (checked_out (tree d) r)).
Proof.
  intros Hc Hb.
  rewrite (bind_ok _ _ _ _ _ (checkout_run _ _ _ Hc)). cbn [data].
  erewrite bind_ok; [done|].
  apply (move_head_run _ name o).
  destruct (checked_out_frame (tree d) r) as (_ & -> & _). done.
Qed.

Lemma switch_branch_unfold r name :
  (∀ p, name ≠ p +:+ WIPString) → is_Some (branches r !! name) →
  switch_branch name r
  = (save_wip ;;; checkout name ;;; move_head name ;;; restore_wip) r.
Proof.
  intros Hn Hb. unfold switch_branch. rewrite (not_wip_name _ Hn).
  rewrite (bind_ok _ _ _ _ _ (branch_exists_run r name)).
  by rewrite bool_decide_eq_true_2.
Qed.

Lemma save_wip_nothing_to_stash r :
  status_entrycount r = 0%nat → merge_ongoing r = (Ok false, r) →
  save_wip r = (Ok tt, r).
Proof.
  intros Hclean Hm. unfold save_wip.
  rewrite (bind_ok _ _ _ _ _ (has_uncommitted_changes_run r)), Hclean.
  cbn [Nat.ltb Nat.leb]. by rewrite (bind_ok _ _ _ _ _ Hm).
Qed.


(** X17: [switch_branch] away from branch [b] with uncommitted changes (no
    merge in progress) to another existing branch that has no stash and
    whose name, once the stash is made, resolves to the commit the branch
    points at (see [resolve_revision_branch] for the names that always
    do): the changes end up in a new commit with the single parent [h],
    the head of [b], on the WIP branch of [b]; [b] itself still points at
    [h]; HEAD is attached to the target; index and working directory are
    the forced checkout of the target's tree over the staged working
    directory. *)
Theorem switch_branch_stashes r b h hd name o d t :
  HEAD r = Symbolic b → branches r !! b = Some h → objects r !! h = Some hd →
  (0 < status_entrycount r)%nat → merge_ongoing r = (Ok false, r) →
  tree_of_index (stage_all (index r) (workdir r)) = Some t →
  (∀ p, name ≠ p +:+ WIPString) → name ≠ b →
  branches r !! name = Some o →
  (∀ r1, save_wip r = (Ok tt, r1) →
         Repo.resolve_revision name r1 = Some (mkCommit o d)) →
  branches r !! (name +:+ WIPString) = None →
  ∃ r', switch_branch name r = (Ok tt, r')
    ∧ HEAD r' = Symbolic name
    ∧ branches r' = <[b +:+ WIPString := length (objects r)]> (branches r)
    ∧ branches r' !! b = Some h
    ∧ objects r' = (objects r ++ [mkCommitData [h] t "WIP"])%list
    ∧ (index r', workdir r')
      = checkout_force (tree d) (stage_all (index r) (workdir r)) (workdir r).
Proof.
  intros Hh Hb Ho Hdirty Hm Ht Hn Hnb Hname Hres Hw.
  set (c := mkCommitData [h] t "WIP").
  set (r1 := committed (on_wip_branch r b h) c).
  assert (save_wip r = (Ok tt, r1)) as Hsave by by eapply save_wip_plain_run.
  destruct (committed_branches (on_wip_branch r b h) c (b +:+ WIPString) eq_refl)
    as [Hh1 Hb1]. fold r1 in Hh1, Hb1.
  assert (branches r1 = <[b +:+ WIPString := length (objects r)]> (branches r)) as Hb1'.
  { rewrite Hb1. unfold on_wip_branch. fsimpl. by rewrite insert_insert_eq. }
  assert (objects r1 = (objects r ++ [c])%list) as Ho1
    by (unfold r1; by rewrite committed_objects).
  assert (name ≠ b +:+ WIPString) as Hnw by apply Hn.
  assert (branches r1 !! name = Some o) as Hname1
    by (by rewrite Hb1', lookup_insert_ne).
  pose proof (Hres r1 Hsave) as Hc1.
  destruct (checked_out_frame (tree d) r1) as (Fo & Fb & Fh & Fm & Fg & Fi).
  exists (set_HEAD (Symbolic name) (checked_out (tree d) r1)). split.
  - rewrite switch_branch_unfold by eauto.
    rewrite (bind_ok _ _ _ _ _ Hsave).
    rewrite (switch_branch_tail r1 name o d Hc1 Hname1).
    apply (restore_wip_noop _ name o); fsimpl; [done | by rewrite Fb |].
    rewrite Fb, Hb1', lookup_insert_ne; [done|].
    intros E. apply Hnb. symmetry. by apply append_cancel_r in E.
  - fsimpl. rewrite Fb, Fo, Fi. split_and!; try done.
    rewrite Hb1', lookup_insert_ne; [done|]. symmetry. apply wip_name_fresh.
Qed.

(** X18: [switch_branch], from a repository with nothing to stash, onto an
    existing branch that has a stash with a single parent and whose name
    resolves to the commit the branch points at: the WIP branch of the
    target is deleted, HEAD is attached to the target, no commit is
    created, and index and working directory are the forced checkout of
    the stashed tree, made on top of the forced checkout of the target's
    own tree. *)
Theorem switch_branch_unstashes r name o d w wd :
  status_entrycount r = 0%nat → merge_ongoing r = (Ok false, r) →
  (∀ p, name ≠ p +:+ WIPString) →
  Repo.resolve_revision name r = Some (mkCommit o d) →
  branches r !! name = Some o →
  branches r !! (name +:+ WIPString) = Some w → objects r !! w = Some wd →
  (length (parent_ids wd) ≤ 1)%nat →
  ∃ r', switch_branch name r = (Ok tt, r')
    ∧ HEAD r' = Symbolic name
    ∧ branches r' = delete (name +:+ WIPString) (branches r)
    ∧ branches r' !! name = Some o
    ∧ objects r' = objects r
    ∧ (index r', workdir r')
      = checkout_force (tree wd)
          (checkout_force (tree d) (index r) (workdir r)).1
          (checkout_force (tree d) (index r) (workdir r)).2.
Proof.
  intros Hclean Hm Hn Hc Hname Hw Hwd Hpar.
  destruct (checked_out_frame (tree d) r) as (Fo & Fb & Fh & Fm & Fg & Fi).
  set (r2 := set_HEAD (Symbolic name) (checked_out (tree d) r)).
  exists (plain_restored name (tree wd) r2). split.
  - rewrite switch_branch_unfold by eauto.
    rewrite (bind_ok _ _ _ _ _ (save_wip_nothing_to_stash r Hclean Hm)).
    rewrite (switch_branch_tail r name o d Hc Hname). fold r2.
    apply (restore_wip_plain_run r2 name o w wd); unfold r2; fsimpl;
      rewrite ?Fb, ?Fo; done.
  - unfold plain_restored.
    destruct (checked_out_frame (tree wd) r2) as (Go & Gb & Gh & _ & _ & Gi).
    fsimpl. rewrite ?Gb, ?Gh, ?Go, ?Gi. unfold r2. fsimpl. rewrite ?Fb, ?Fo.
    split_and!; try done.
    rewrite lookup_delete_ne; [done|]. symmetry. apply wip_name_fresh.
Qed.

(** X19: [switch_branch] onto the branch HEAD is already on, with
    uncommitted changes and no merge in progress, for a branch whose name,
    once the stash is made, resolves to the commit the branch points at
    (see [resolve_revision_branch] for the names that always do), is a
    stash followed by its own unstash: afterwards HEAD is on the branch,
    the branch points at the same commit, no WIP branch of it exists, and
    index and working directory are the forced checkout of the stashed
    tree over the forced checkout of the branch's tree.  The WIP commit
    stays in the store. *)
Theorem switch_branch_to_current r b h hd t :
  HEAD r = Symbolic b → branches r !! b = Some h → objects r !! h = Some hd →
  (0 < status_entrycount r)%nat → merge_ongoing r = (Ok false, r) →
  tree_of_index (stage_all (index r) (workdir r)) = Some t →
  (∀ p, b ≠ p +:+ WIPString) →
  (∀ r1, save_wip r = (Ok tt, r1) →
         Repo.resolve_revision b r1 = Some (mkCommit h hd)) →
  ∃ r', switch_branch b r = (Ok tt, r')
    ∧ HEAD r' = Symbolic b
    ∧ branches r' = delete (b +:+ WIPString) (branches r)
    ∧ branches r' !! b = Some h
    ∧ branches r' !! (b +:+ WIPString) = None
    ∧ objects r' = (objects r ++ [mkCommitData [h] t "WIP"])%list
    ∧ (index r', workdir r')
      = checkout_force t
          (checkout_force (tree hd) (stage_all (index r) (workdir r)) (workdir r)).1
          (checkout_force (tree hd) (stage_all (index r) (workdir r)) (workdir r)).2.
Proof.
  intros Hh Hb Ho Hdirty Hm Ht Hn Hres.
  set (c := mkCommitData [h] t "WIP").
  set (r1 := committed (on_wip_branch r b h) c).
  assert (save_wip r = (Ok tt, r1)) as Hsave by by eapply save_wip_plain_run.
  destruct (committed_branches (on_wip_branch r b h) c (b +:+ WIPString) eq_refl)
    as [Hh1 Hb1]. fold r1 in Hh1, Hb1.
  assert (branches r1 = <[b +:+ WIPString := length (objects r)]> (branches r)) as Hb1'.
  { rewrite Hb1. unfold on_wip_branch. fsimpl. by rewrite insert_insert_eq. }
  assert (objects r1 = (objects r ++ [c])%list) as Ho1
    by (unfold r1; by rewrite committed_objects).
  assert (b ≠ b +:+ WIPString) as Hnw by apply wip_name_fresh.
  assert (branches r1 !! b = Some h) as Hbb1 by (by rewrite Hb1', lookup_insert_ne).
  pose proof (Hres r1 Hsave) as Hc1.
  destruct (checked_out_frame (tree hd) r1) as (Fo & Fb & Fh & Fm & Fg & Fi).
  set (r2 := set_HEAD (Symbolic b) (checked_out (tree hd) r1)).
  exists (plain_restored b t r2). split.
  - rewrite switch_branch_unfold by eauto.
    rewrite (bind_ok _ _ _ _ _ Hsave).
    rewrite (switch_branch_tail r1 b h hd Hc1 Hbb1). fold r2.
    apply (restore_wip_plain_run r2 b h (length (objects r)) c); unfold r2; fsimpl;
      rewrite ?Fb, ?Fo; try done;
      [by rewrite Hb1', lookup_insert_eq | by rewrite Ho1, lookup_app_r, Nat.sub_diag].
  - unfold plain_restored.
    destruct (checked_out_frame t r2) as (Go & Gb & Gh & _ & _ & Gi).
    fsimpl. rewrite ?Gb, ?Gh, ?Go, ?Gi. unfold r2. fsimpl. rewrite ?Fb, ?Fo, ?Hb1'.
    rewrite delete_insert_eq.
    split_and!; try done; [by rewrite lookup_delete_ne | apply lookup_delete_eq].
Qed.

End SwitchFacts.

(** ** Conflicts and merges across a switch *)

Section ConflictFacts.
Context `{Store}.

(** X20: the detour of index conflicts through detached copies loses
    nothing: capturing the conflicts with [get_conflicts], clearing them
    from the index and adding the copies back one by one gives exactly the
    repository from before, whatever the conflicts are. *)
Theorem conflicts_round_trip r :
  ∃ us,
    (cs <- get_conflicts ;;
     Repo.index_cleanup_conflicts ;;;
     Repo.for_each Repo.index_add_conflict cs) r = (Ok us, r).
Proof.
  unfold get_conflicts, Repo.index_conflict_iterator, Repo.index_cleanup_conflicts.
  cbv [Git.bind gets modify].
  set (r1 := set_index (mkIndex (entries (index r)) ∅) r).
  destruct (add_conflicts_run (map_to_list (conflicts (index r))) r1) as [us Hus].
  exists us. rewrite Hus. f_equal.
  assert (add_conflicts (map_to_list (conflicts (index r))) (index r1) = index r) as E.
  { pose proof (add_conflicts_entries (map_to_list (conflicts (index r))) (index r1))
      as He.
    assert (conflicts (add_conflicts (map_to_list (conflicts (index r))) (index r1))
            = conflicts (index r)) as Hc.
    { apply map_eq. intros p. rewrite add_conflicts_lookup.
      destruct (conflicts (index r) !! p); [done|]. unfold r1. fsimpl.
      apply lookup_empty. }
    destruct (add_conflicts _ _) as [e c]. simpl in *. subst.
    unfold r1. fsimpl. by destruct (index r). }
  rewrite E. unfold r1. by destruct r.
Qed.

(** X21: [switch_branch] away from branch [b] in the middle of a merge to
    another existing branch that has no stash and whose name, once the
    stash is made, resolves to the commit the branch points at (see
    [resolve_revision_branch] for the names that always do): the merge is
    put away in a commit on the WIP branch of [b] with exactly the parents
    head of [b] and merge head and the message ["WIP\n"] followed by the
    merge message; on arrival HEAD is attached to the target, [b] still
    points at its commit and no merge is in progress. *)
Theorem switch_branch_stashes_merge r b h hd mc name o d t :
  HEAD r = Symbolic b → branches r !! b = Some h → objects r !! h = Some hd →
  Repo.resolve_revision "MERGE_HEAD" r = Some mc →
  tree_of_index (stage_all (index r) (workdir r)) = Some t →
  (∀ p, name ≠ p +:+ WIPString) → name ≠ b →
  branches r !! name = Some o →
  (∀ r1, save_wip r = (Ok tt, r1) →
         Repo.resolve_revision name r1 = Some (mkCommit o d)) →
  branches r !! (name +:+ WIPString) = None →
  ∃ r', switch_branch name r = (Ok tt, r')
    ∧ HEAD r' = Symbolic name
    ∧ branches r' = <[b +:+ WIPString := length (objects r)]> (branches r)
    ∧ branches r' !! b = Some h
    ∧ objects r'
      = (objects r
         ++ [mkCommitData [h; id mc] t
               ("WIP" +:+ String "010" (default EmptyString (MERGE_MSG r)))])%list
    ∧ (index r', workdir r')
      = checkout_force (tree d) (stage_all (index r) (workdir r)) (workdir r)
    ∧ merge_ongoing r' = (Ok false, r')
    ∧ MERGE_HEAD r' = None ∧ MERGE_MSG r' = None.
Proof.
  intros Hh Hb Ho Hmc Ht Hn Hnb Hname Hres Hw.
  set (c := mkCommitData [h; id mc] t
              ("WIP" +:+ String "010" (default EmptyString (MERGE_MSG r)))).
  set (r0 := committed (on_wip_branch r b h) c).
  set (r1 := set_MERGE_MSG None (set_MERGE_HEAD None r0)).
  assert (save_wip r = (Ok tt, r1)) as Hsave by by eapply save_wip_merging_run.
  destruct (committed_branches (on_wip_branch r b h) c (b +:+ WIPString) eq_refl)
    as [Hh0 Hb0]. fold r0 in Hh0, Hb0.
  assert (branches r1 = <[b +:+ WIPString := length (objects r)]> (branches r)) as Hb1.
  { unfold r1. fsimpl. rewrite Hb0. unfold on_wip_branch. fsimpl.
    by rewrite insert_insert_eq. }
  assert (objects r1 = (objects r ++ [c])%list) as Ho1
    by (unfold r1, r0; fsimpl; by rewrite committed_objects).
  assert (name ≠ b +:+ WIPString) as Hnw by apply Hn.
  assert (branches r1 !! name = Some o) as Hname1
    by (by rewrite Hb1, lookup_insert_ne).
  pose proof (Hres r1 Hsave) as Hc1.
  destruct (checked_out_frame (tree d) r1) as (Fo & Fb & Fh & Fm & Fg & Fi).
  exists (set_HEAD (Symbolic name) (checked_out (tree d) r1)). split.
  - rewrite switch_branch_unfold by eauto.
    rewrite (bind_ok _ _ _ _ _ Hsave).
    rewrite (switch_branch_tail r1 name o d Hc1 Hname1).
    apply (restore_wip_noop _ name o); fsimpl; [done | by rewrite Fb |].
    rewrite Fb, Hb1, lookup_insert_ne; [done|].
    intros E. apply Hnb. symmetry. by apply append_cancel_r in E.
  - fsimpl. rewrite Fb, Fo, Fi, Fm, Fg. split_and!; try done.
    + rewrite Hb1, lookup_insert_ne; [done|]. symmetry. apply wip_name_fresh.
    + apply merge_ongoing_false. rewrite resolve_revision_MERGE_HEAD. fsimpl.
      by rewrite Fm.
Qed.

End ConflictFacts.

(** ** The operations on the reference store *)

Import RefStore Examples.

(** The example repositories are states the workflow itself produces. *)
Lemma stashed_repo_reached : save_wip dirty_repo = (Ok tt, stashed_repo).
Proof. vm_compute. reflexivity. Qed.

Lemma merging_repo_reached : absorb "topic" diverged_repo = (Ok true, merging_repo).
Proof. vm_compute. reflexivity. Qed.


Lemma merge_stashed_repo_reached :
  save_wip merging_repo = (Ok tt, merge_stashed_repo).
Proof. vm_compute. reflexivity. Qed.


Lemma split_at_first_spec_witness :
  size "key=value" < npos
  ∧ ∃ before after,
      split_at_first "key=value" "=" = Some (before, after)
      ∧ ((¬ occurs "=" "key=value" ∧ before = "key=value" ∧ after = EmptyString)
         ∨ (occurs "=" "key=value" ∧ "key=value" = before +:+ String "=" after
            ∧ ¬ occurs "=" before)).
Proof. split; [reflexivity | apply split_at_first_spec; reflexivity]. Defined.

Lemma save_wip_clean_noop_witness :
  status_entrycount clean_repo = 0%nat
  ∧ merge_ongoing clean_repo = (Ok false, clean_repo)
  ∧ save_wip clean_repo = (Ok tt, clean_repo).
Proof.
  split_and!; [reflexivity | reflexivity |].
  apply save_wip_clean_noop; reflexivity.
Defined.

Lemma wip_names_rejected_witness :
  absorb "main#wip" clean_repo
    = (Throw (UnsupportedOperationException "Can't absorb WIP branch."), clean_repo)
  ∧ switch_branch "main#wip" clean_repo
    = (Throw (UnsupportedOperationException "Can't switch to WIP branch."), clean_repo)
  ∧ switch_branch "topic" clean_repo = (Throw BranchNotFoundException, clean_repo).
Proof.
  destruct (wip_names_rejected clean_repo "main") as (Ha & Hs & Hn).
  split_and!; [exact Ha | exact Hs |].
  apply Hn; [apply not_wip_suffix; reflexivity | reflexivity].
Defined.


Lemma absorb_unnecessary_witness :
  merge_ongoing diverged_repo = (Ok false, diverged_repo)
  ∧ absorb "main" diverged_repo = (Throw UnnecessaryMergeException, diverged_repo).
Proof.
  split; [reflexivity|].
  apply (absorb_unnecessary diverged_repo "main"
           (mkCommit 1%nat (mkCommitData [0%nat] {[ "a.txt" := "ours" ]} "main work"))).
  - apply not_wip_suffix. reflexivity.
  - reflexivity.
  - reflexivity.
  - by vm_compute.
Defined.

(** On a store that answers none, [absorb] of a diverged commit is refused
    as unsupported rather than as unnecessary. *)
Lemma absorb_none_result :
  @absorb none_store "topic" diverged_repo
  = (Throw (UnsupportedOperationException "Non-normal absorb not supported."),
     diverged_repo).
Proof.
  apply (@absorb_no_flags none_store diverged_repo "topic"
           (mkCommit 2%nat (mkCommitData [0%nat] {[ "a.txt" := "theirs" ]} "topic work")));
    [apply not_wip_suffix; reflexivity | reflexivity..].
Qed.

Lemma resolve_outcomes_witness :
  ∃ r', resolve merging_repo = (Ok tt, r')
    ∧ objects r'
      = (objects merging_repo
         ++ [mkCommitData [1%nat; 2%nat] {[ "a.txt" := "<<<ours===theirs>>>" ]}
               "Absorbed topic"])%list
    ∧ merge_ongoing r' = (Ok false, r').
Proof.
  destruct (resolve_outcomes merging_repo) as [_ Hm].
  destruct (Hm (mkCommit 1%nat (mkCommitData [0%nat] {[ "a.txt" := "ours" ]} "main work"))
              (mkCommit 2%nat (mkCommitData [0%nat] {[ "a.txt" := "theirs" ]} "topic work"))
              {[ "a.txt" := "<<<ours===theirs>>>" ]})
    as (r' & Hr & _ & Ho & _ & _ & _ & _ & Hf); [reflexivity..|].
  exists r'. split_and!; [exact Hr | exact Ho | exact Hf].
Defined.

Lemma patch_outcomes_witness :
  ∃ r', patch "main work, reworded" diverged_repo = (Ok tt, r')
    ∧ objects r'
      = (objects diverged_repo
         ++ [mkCommitData [0%nat] {[ "a.txt" := "ours" ]} "main work, reworded"])%list
    ∧ branches r' = <[ "main" := 3%nat ]> (branches diverged_repo).
Proof.
  destruct (patch_outcomes diverged_repo "main work, reworded") as (_ & _ & Hp).
  destruct (Hp (mkCommit 1%nat (mkCommitData [0%nat] {[ "a.txt" := "ours" ]} "main work"))
              {[ "a.txt" := "ours" ]})
    as (r1 & r' & _ & _ & _ & Hr & _ & Ho & _ & _ & Hb).
  - reflexivity.
  - reflexivity.
  - discriminate.
  - repeat constructor. by eexists.
  - reflexivity.
  - exists r'. split_and!; [exact Hr | exact Ho | by apply (Hb "main")].
Defined.

Lemma save_wip_commit_shape_witness :
  (∃ r', save_wip dirty_repo = (Ok tt, r')
     ∧ objects r'
       = (objects dirty_repo
          ++ [mkCommitData [0%nat] (<[ "b.txt" := "new" ]> {[ "a.txt" := "edited" ]})
                "WIP"])%list
     ∧ HEAD r' = Symbolic "main#wip")
  ∧ (∃ r', save_wip merging_repo = (Ok tt, r')
       ∧ objects r'
         = (objects merging_repo
            ++ [mkCommitData [1%nat; 2%nat] {[ "a.txt" := "<<<ours===theirs>>>" ]}
                  ("WIP" +:+ String "010" "Absorbed topic")])%list
       ∧ merge_ongoing merging_repo = (Ok true, merging_repo)
       ∧ merge_ongoing r' = (Ok false, r'))
  ∧ (∃ r', save_wip stuck_merge_repo = (Throw GitException, r')
       ∧ objects r' = objects stuck_merge_repo
       ∧ MERGE_HEAD r' = Some 2%nat
       ∧ MERGE_MSG r' = Some "Absorbed topic"
       ∧ merge_ongoing r' = (Ok true, r')).
Proof.
  split_and!.
  - destruct (save_wip_commit_shape dirty_repo "main" 0%nat root_commit)
      as (Hplain & _ & _); [reflexivity..|].
    destruct (Hplain (<[ "b.txt" := "new" ]> {[ "a.txt" := "edited" ]}))
      as (r' & Hr & Ho & Hh & _).
    + reflexivity.
    + reflexivity.
    + vm_compute. lia.
    + exists r'. split_and!; [exact Hr | exact Ho | exact Hh].
  - destruct (save_wip_commit_shape merging_repo "main" 1%nat
                (mkCommitData [0%nat] {[ "a.txt" := "ours" ]} "main work"))
      as (_ & Hmerge & _); [reflexivity..|].
    destruct (Hmerge {[ "a.txt" := "<<<ours===theirs>>>" ]}
                (mkCommit 2%nat
                   (mkCommitData [0%nat] {[ "a.txt" := "theirs" ]} "topic work")))
      as (r1 & r' & Ho1 & _ & _ & Hr & Ho & _ & _ & Hf & _); [reflexivity..|].
    exists r'. split_and!; [exact Hr | by rewrite Ho, Ho1 | reflexivity | exact Hf].
  - destruct (save_wip_commit_shape stuck_merge_repo "main" 1%nat
                (mkCommitData [0%nat] {[ "a.txt" := "ours" ]} "main work"))
      as (_ & _ & Hfail); [reflexivity..|].
    destruct (Hfail (mkCommit 2%nat
                       (mkCommitData [0%nat] {[ "a.txt" := "theirs" ]} "topic work")))
      as (r' & Hr & Ho & _ & Hmh & Hmsg & Hm); [reflexivity..|].
    exists r'. split_and!; [exact Hr | exact Ho | exact Hmh | exact Hmsg | exact Hm].
Defined.

Lemma restore_wip_merge_message_witness :
  ∃ r', restore_wip one_line_wip_repo = (Ok tt, r')
    ∧ MERGE_HEAD r' = Some 2%nat
    ∧ MERGE_MSG r' = Some "WIP"
    ∧ default_merge_message (oid_str 2%nat) = "Absorbed 2".
Proof.
  destruct (restore_wip_merge_message one_line_wip_repo "main" 1%nat 3%nat
              (mkCommitData [1%nat; 2%nat] {[ "a.txt" := "resolved" ]} "WIP")
              2%nat (mkCommitData [0%nat] {[ "a.txt" := "theirs" ]} "topic work"))
    as (r' & Hr & Hmh & _ & Hmsg).
  - reflexivity.
  - reflexivity.
  - reflexivity.
  - reflexivity.
  - reflexivity.
  - reflexivity.
  - intros [Hu|Hu]; by vm_compute in Hu.
  - by vm_compute.
  - reflexivity.
  - exists r'. split_and!; [exact Hr | exact Hmh | | reflexivity].
    apply Hmsg. simpl. intros [?|[?|[?|[]]]]; discriminate.
Defined.



(** C3 as stated fails for names carrying the WIP suffix: on
    [stashed_repo], which is not merging, [main#wip] resolves to the head
    commit, the analysis reports up-to-date, and [absorb] throws
    [UnsupportedOperationException] instead of [UnnecessaryMergeException]. *)
Lemma absorb_wip_name_counterexample :
  merge_ongoing stashed_repo = (Ok false, stashed_repo)
  ∧ (∃ c, Repo.resolve_revision "main#wip" stashed_repo = Some c
       ∧ reports (analyse_merge stashed_repo (id c)) GIT_MERGE_ANALYSIS_UP_TO_DATE)
  ∧ absorb "main#wip" stashed_repo
    = (Throw (UnsupportedOperationException "Can't absorb WIP branch."), stashed_repo)
  ∧ absorb "main#wip" stashed_repo ≠ (Throw UnnecessaryMergeException, stashed_repo).
Proof.
  split_and!; [reflexivity | | reflexivity | discriminate].
  eexists. split; [reflexivity|]. by vm_compute.
Qed.

(** ** The further properties on the reference store *)

Lemma busy_stashed_repo_reached : save_wip busy_repo = (Ok tt, busy_stashed_repo).
Proof. vm_compute. reflexivity. Qed.

Lemma away_repo_reached : switch_branch "topic" busy_repo = (Ok tt, away_repo).
Proof. vm_compute. reflexivity. Qed.

Lemma wip_message_round_trip_witness :
  size "Absorbed topic" < npos - 4
  ∧ (0 <=? find ("WIP" +:+ String "010" "Absorbed topic") "010") = true
  ∧ substr ("WIP" +:+ String "010" "Absorbed topic")
      (to_size_t (find ("WIP" +:+ String "010" "Absorbed topic") "010" + 1)) npos
    = Some "Absorbed topic".
Proof.
  split; [reflexivity|].
  apply (wip_message_round_trip "Absorbed topic"). reflexivity.
Defined.

Lemma current_branch_name_spec_witness :
  current_branch_name clean_repo = (Ok "main", clean_repo)
  ∧ current_branch_name detached_repo = (Throw BranchNotFoundException, detached_repo).
Proof.
  split.
  - apply (current_branch_name_spec clean_repo). split; [reflexivity|].
    exists 0%nat. reflexivity.
  - apply (current_branch_name_spec detached_repo).
    intros (b & Hb & _). discriminate Hb.
Defined.

Lemma move_head_then_current_branch_name_witness :
  move_head "nowhere" diverged_repo = (Throw GitException, diverged_repo)
  ∧ (move_head "topic" ;;; current_branch_name) diverged_repo
    = (Ok "topic", set_HEAD (Symbolic "topic") diverged_repo).
Proof.
  split.
  - apply (move_head_then_current_branch_name diverged_repo "nowhere"). reflexivity.
  - apply (move_head_then_current_branch_name diverged_repo "topic").
    exists 2%nat. reflexivity.
Defined.

Lemma create_then_delete_branch_witness :
  create_branch "main" clean_repo = (Throw GitException, clean_repo)
  ∧ ∃ r1, create_branch "feature" clean_repo = (Ok tt, r1)
      ∧ branches r1 !! "feature" = Some 0%nat
      ∧ branch_exists "feature" r1 = (Ok true, r1)
      ∧ delete_branch "feature" r1 = (Ok tt, clean_repo).
Proof.
  split.
  - apply (create_then_delete_branch clean_repo "main" (mkCommit 0%nat root_commit));
      [reflexivity|]. exists 0%nat. reflexivity.
  - apply (create_then_delete_branch clean_repo "feature" (mkCommit 0%nat root_commit));
      reflexivity.
Defined.

Lemma wip_needs_a_branch_witness :
  restore_wip detached_repo = (Throw BranchNotFoundException, detached_repo)
  ∧ save_wip detached_repo = (Throw BranchNotFoundException, detached_repo).
Proof.
  destruct (wip_needs_a_branch detached_repo) as [Hr Hs].
  - intros (b & Hb & _). discriminate Hb.
  - split; [exact Hr|]. apply Hs. left. vm_compute. lia.
Defined.

Lemma delete_last_commit_spec_witness :
  delete_last_commit true clean_repo
  = (Throw (UnsupportedOperationException "Can't delete initial commit."), clean_repo)
  ∧ ∃ r', delete_last_commit true diverged_repo = (Ok tt, r')
      ∧ Repo.resolve_revision "HEAD" r' = Some (mkCommit 0%nat root_commit)
      ∧ objects r' = objects diverged_repo
      ∧ workdir r' = {[ "a.txt" := "one" ]}.
Proof.
  split.
  - apply (delete_last_commit_spec clean_repo true (mkCommit 0%nat root_commit));
      reflexivity.
  - destruct (delete_last_commit_spec diverged_repo true
                (mkCommit 1%nat (mkCommitData [0%nat] {[ "a.txt" := "ours" ]} "main work")))
      as [_ Hd]; [reflexivity|].
    destruct (Hd 0%nat root_commit) as (r' & Hr & Hh & Ho & Hiw); [reflexivity..|].
    exists r'. split_and!; [exact Hr | exact Hh | exact Ho |].
    change (workdir r') with (index r', workdir r').2. rewrite Hiw. reflexivity.
Defined.

Lemma commit_revs_failures_witness :
  commit_revs "work" ["HEAD"; "nowhere"] dirty_repo = (Throw GitException, dirty_repo)
  ∧ commit_revs "work" ["HEAD"] unmerged_repo
    = (Throw GitException,
       set_index (mkIndex {[ "a.txt" := "edited" ]} (conflicts (index unmerged_repo)))
         unmerged_repo).
Proof.
  split.
  - destruct (commit_revs_failures dirty_repo "work" ["HEAD"; "nowhere"]) as [Hf _].
    apply Hf. exists "nowhere". split; [|reflexivity].
    apply list_elem_of_further, list_elem_of_here.
  - destruct (commit_revs_failures unmerged_repo "work" ["HEAD"]) as [_ Hf].
    apply Hf.
    + intros rev Hrev. apply list_elem_of_singleton in Hrev. subst rev.
      exists (mkCommit 0%nat root_commit). reflexivity.
    + reflexivity.
Defined.

Lemma commit_revs_frame_witness :
  ∃ r', commit_revs "work" ["HEAD"] dirty_repo = (Ok tt, r')
    ∧ Repo.resolve_revision "HEAD" r'
      = Some (mkCommit 1%nat
                (mkCommitData [0%nat] (<[ "b.txt" := "new" ]> {[ "a.txt" := "edited" ]})
                   "work"))
    ∧ objects r' !! 0%nat = Some root_commit
    ∧ workdir r' = workdir dirty_repo.
Proof.
  destruct (commit_revs_frame dirty_repo "work" ["HEAD"] [mkCommit 0%nat root_commit]
              (<[ "b.txt" := "new" ]> {[ "a.txt" := "edited" ]}))
    as (r' & Hr & Hh & Ho & _ & Hw & _).
  - repeat constructor.
  - reflexivity.
  - exists r'. split_and!; [exact Hr | exact Hh | apply Ho; reflexivity | exact Hw].
Defined.

Lemma merge_head_id_round_trip_witness :
  merge_head_id clean_repo = (Throw GitException, clean_repo)
  ∧ ∃ c, get_commit "MERGE_HEAD" merging_repo = (Ok c, merging_repo)
      ∧ merge_head_id merging_repo = (Ok "2", merging_repo)
      ∧ get_commit "2" merging_repo = (Ok c, merging_repo).
Proof.
  split.
  - apply (merge_head_id_round_trip clean_repo). reflexivity.
  - destruct (merge_head_id_round_trip merging_repo) as [_ Hm].
    destruct Hm as (c & Hc & Hi & Hg); [reflexivity|].
    assert (Hid : c = mkCommit 2%nat
                        (mkCommitData [0%nat] {[ "a.txt" := "theirs" ]} "topic work")).
    { assert (Hc0 : get_commit "MERGE_HEAD" merging_repo
                    = (Ok (mkCommit 2%nat
                             (mkCommitData [0%nat] {[ "a.txt" := "theirs" ]} "topic work")),
                       merging_repo)) by reflexivity.
      rewrite Hc0 in Hc. injection Hc as <-. reflexivity. }
    subst c. exists (mkCommit 2%nat
                       (mkCommitData [0%nat] {[ "a.txt" := "theirs" ]} "topic work")).
    split_and!; [exact Hc | exact Hi | exact Hg].
Defined.

Lemma absorb_rejections_witness :
  absorb "topic" merging_repo = (Throw CurrentlyMergingException, merging_repo)
  ∧ absorb "nowhere" clean_repo = (Throw GitException, clean_repo)
  ∧ absorb "main" unborn_repo
    = (Throw (UnsupportedOperationException "Non-normal absorb not supported."),
       unborn_repo).
Proof.
  split_and!.
  - apply (absorb_rejections merging_repo "topic");
      [apply not_wip_suffix; reflexivity | reflexivity].
  - apply (absorb_rejections clean_repo "nowhere");
      [apply not_wip_suffix; reflexivity | reflexivity | reflexivity].
  - destruct (absorb_rejections unborn_repo "main") as (_ & _ & Hn);
      [apply not_wip_suffix; reflexivity|].
    apply (Hn (mkCommit 0%nat root_commit)).
    + reflexivity.
    + reflexivity.
    + intros [Hu|Hu]; exact (Hu eq_refl).
    + intros Hu. exact (Hu eq_refl).
Defined.

Lemma absorb_without_conflicts_witness :
  ∃ r', absorb "topic" disjoint_repo = (Ok false, r')
    ∧ Repo.resolve_revision "HEAD" r'
      = Some (mkCommit 3%nat
                (mkCommitData [1%nat; 2%nat]
                   (<[ "t.txt" := "topic" ]>
                      (<[ "m.txt" := "main" ]> {[ "a.txt" := "one" ]}))
                   "Absorbed topic"))
    ∧ merge_ongoing r' = (Ok false, r').
Proof.
  destruct (absorb_without_conflicts disjoint_repo "topic"
              (mkCommit 2%nat
                 (mkCommitData [0%nat] (<[ "t.txt" := "topic" ]> {[ "a.txt" := "one" ]})
                    "topic work"))
              (mkCommit 1%nat
                 (mkCommitData [0%nat] (<[ "m.txt" := "main" ]> {[ "a.txt" := "one" ]})
                    "main work"))
              (<[ "t.txt" := "topic" ]> (<[ "m.txt" := "main" ]> {[ "a.txt" := "one" ]})))
    as (r' & Hr & Hh & _ & Hf).
  - apply not_wip_suffix. reflexivity.
  - reflexivity.
  - reflexivity.
  - reflexivity.
  - intros [Hu|Hu]; exact (Hu eq_refl).
  - discriminate.
  - reflexivity.
  - reflexivity.
  - exists r'. split_and!; [exact Hr | exact Hh | exact Hf].
Defined.

Lemma absorb_with_conflicts_then_resolve_witness :
  ∃ r1, absorb "topic" diverged_repo = (Ok true, r1)
    ∧ merge_ongoing r1 = (Ok true, r1)
    ∧ MERGE_MSG r1 = Some "Absorbed topic"
    ∧ ∃ r2, resolve r1 = (Ok tt, r2)
        ∧ Repo.resolve_revision "HEAD" r2
          = Some (mkCommit 3%nat
                    (mkCommitData [1%nat; 2%nat] {[ "a.txt" := "<<<ours===theirs>>>" ]}
                       "Absorbed topic"))
        ∧ merge_ongoing r2 = (Ok false, r2).
Proof.
  destruct (absorb_with_conflicts_then_resolve diverged_repo "topic"
              (mkCommit 2%nat (mkCommitData [0%nat] {[ "a.txt" := "theirs" ]} "topic work"))
              (mkCommit 1%nat (mkCommitData [0%nat] {[ "a.txt" := "ours" ]} "main work")))
    as (r1 & Hr & Hm & _ & _ & _ & _ & Hmsg & Hres).
  - apply not_wip_suffix. reflexivity.
  - reflexivity.
  - reflexivity.
  - reflexivity.
  - intros [Hu|Hu]; exact (Hu eq_refl).
  - discriminate.
  - intros He. apply (f_equal (λ m, m !! "a.txt")) in He. discriminate He.
  - exists r1. split_and!; [exact Hr | exact Hm | exact Hmsg |].
    destruct (Hres {[ "a.txt" := "<<<ours===theirs>>>" ]}) as (r2 & Hr2 & Hh & _ & Hf).
    + rewrite merging_repo_reached in Hr. injection Hr as <-. reflexivity.
    + exists r2. split_and!; [exact Hr2 | exact Hh | exact Hf].
Defined.

Lemma restore_wip_keeps_stash_on_failure_witness :
  restore_wip outdated_stash_repo = (Throw UnnecessaryMergeException, outdated_stash_repo).
Proof.
  destruct (restore_wip_keeps_stash_on_failure outdated_stash_repo "main" 1%nat 2%nat
              (mkCommitData [1%nat; 0%nat] {[ "a.txt" := "ours" ]}
                 ("WIP" +:+ String "010" "Absorbed 0"))
              0%nat root_commit) as [Hu _]; [reflexivity..|].
  apply Hu. left. discriminate.
Defined.


Lemma switch_branch_stashes_witness :
  ∃ r', switch_branch "topic" busy_repo = (Ok tt, r')
    ∧ HEAD r' = Symbolic "topic"
    ∧ branches r' !! "main#wip" = Some 2%nat
    ∧ branches r' !! "main" = Some 0%nat
    ∧ objects r'
      = (objects busy_repo
         ++ [mkCommitData [0%nat] (<[ "b.txt" := "new" ]> {[ "a.txt" := "edited" ]})
               "WIP"])%list
    ∧ workdir r' = {[ "a.txt" := "topic" ]}.
Proof.
  destruct (switch_branch_stashes busy_repo "main" 0%nat root_commit "topic" 1%nat
              (mkCommitData [0%nat] {[ "a.txt" := "topic" ]} "topic work")
              (<[ "b.txt" := "new" ]> {[ "a.txt" := "edited" ]}))
    as (r' & Hr & Hh & Hb & Hm & Ho & Hiw).
  - reflexivity.
  - reflexivity.
  - reflexivity.
  - vm_compute. lia.
  - reflexivity.
  - reflexivity.
  - apply not_wip_suffix. reflexivity.
  - discriminate.
  - reflexivity.
  - intros r1 Hs. rewrite busy_stashed_repo_reached in Hs. injection Hs as <-.
    reflexivity.
  - reflexivity.
  - exists r'. split_and!; [exact Hr | exact Hh | | exact Hm | exact Ho |].
    + rewrite Hb. reflexivity.
    + change (workdir r') with (index r', workdir r').2. rewrite Hiw. reflexivity.
Defined.

Lemma switch_branch_unstashes_witness :
  ∃ r', switch_branch "main" away_repo = (Ok tt, r')
    ∧ HEAD r' = Symbolic "main"
    ∧ branches r' !! "main#wip" = None
    ∧ branches r' !! "main" = Some 0%nat
    ∧ objects r' = objects away_repo
    ∧ workdir r' = <[ "b.txt" := "new" ]> {[ "a.txt" := "edited" ]}.
Proof.
  destruct (switch_branch_unstashes away_repo "main" 0%nat root_commit 2%nat
              (mkCommitData [0%nat] (<[ "b.txt" := "new" ]> {[ "a.txt" := "edited" ]})
                 "WIP"))
    as (r' & Hr & Hh & Hb & Hm & Ho & Hiw).
  - reflexivity.
  - reflexivity.
  - apply not_wip_suffix. reflexivity.
  - reflexivity.
  - reflexivity.
  - reflexivity.
  - reflexivity.
  - vm_compute. lia.
  - exists r'. split_and!; [exact Hr | exact Hh | | exact Hm | exact Ho |].
    + rewrite Hb. reflexivity.
    + change (workdir r') with (index r', workdir r').2. rewrite Hiw. reflexivity.
Defined.

Lemma switch_branch_to_current_witness :
  ∃ r', switch_branch "main" dirty_repo = (Ok tt, r')
    ∧ HEAD r' = Symbolic "main"
    ∧ branches r' !! "main" = Some 0%nat
    ∧ branches r' !! "main#wip" = None
    ∧ workdir r' = workdir dirty_repo.
Proof.
  destruct (switch_branch_to_current dirty_repo "main" 0%nat root_commit
              (<[ "b.txt" := "new" ]> {[ "a.txt" := "edited" ]}))
    as (r' & Hr & Hh & _ & Hm & Hw & _ & Hiw).
  - reflexivity.
  - reflexivity.
  - reflexivity.
  - vm_compute. lia.
  - reflexivity.
  - reflexivity.
  - apply not_wip_suffix. reflexivity.
  - intros r1 Hs. rewrite stashed_repo_reached in Hs. injection Hs as <-.
    reflexivity.
  - exists r'. split_and!; [exact Hr | exact Hh | exact Hm | exact Hw |].
    change (workdir r') with (index r', workdir r').2. rewrite Hiw. reflexivity.
Defined.

Lemma switch_branch_stashes_merge_witness :
  ∃ r', switch_branch "topic" merging_repo = (Ok tt, r')
    ∧ HEAD r' = Symbolic "topic"
    ∧ branches r' !! "main#wip" = Some 3%nat
    ∧ branches r' !! "main" = Some 1%nat
    ∧ objects r'
      = (objects merging_repo
         ++ [mkCommitData [1%nat; 2%nat] {[ "a.txt" := "<<<ours===theirs>>>" ]}
               ("WIP" +:+ String "010" "Absorbed topic")])%list
    ∧ merge_ongoing r' = (Ok false, r').
Proof.
  destruct (switch_branch_stashes_merge merging_repo "main" 1%nat
              (mkCommitData [0%nat] {[ "a.txt" := "ours" ]} "main work")
              (mkCommit 2%nat (mkCommitData [0%nat] {[ "a.txt" := "theirs" ]} "topic work"))
              "topic" 2%nat
              (mkCommitData [0%nat] {[ "a.txt" := "theirs" ]} "topic work")
              {[ "a.txt" := "<<<ours===theirs>>>" ]})
    as (r' & Hr & Hh & Hb & Hm & Ho & _ & Hf & _).
  - reflexivity.
  - reflexivity.
  - reflexivity.
  - reflexivity.
  - reflexivity.
  - apply not_wip_suffix. reflexivity.
  - discriminate.
  - reflexivity.
  - intros r1 Hs. rewrite merge_stashed_repo_reached in Hs. injection Hs as <-.
    reflexivity.
  - reflexivity.
  - exists r'. split_and!; [exact Hr | exact Hh | | exact Hm | exact Ho | exact Hf].
    rewrite Hb. reflexivity.
Defined.
